(** * wppsnake: the game loop, the leaderboard store and the commentary call

    A shallow embedding of [src/App.tsx] (game state and its handlers),
    [src/services/storageService.ts] (leaderboard persistence) and
    [src/services/geminiService.ts] (post-game commentary), followed by the
    properties the specification states about them.

    Conventions of the embedding:
    - grid coordinates and scores are JavaScript numbers that only ever hold
      integers: they are [Z]; where the source divides or draws a random
      fraction the value is a rational [Q] and [Math.floor] is [Qfloor];
    - a JavaScript string is the list of its UTF-16 code units;
    - handlers are written in a small state-and-exception monad over the
      React state of [App] and the browser objects the code touches
      ([localStorage], [console], [alert]); a [throw] keeps the mutations made
      before it, as in JavaScript;
    - React's [setX] calls are applied at once: no handler reads a state
      variable after writing it, so the rendered closure values and the
      current ones agree in every handler;
    - [Math.random()] and [new Date()] are inputs of the handler that uses
      them; the [while (true)] loop of [getRandomPosition] runs on fuel;
    - the text under the leaderboard key and the text of a generative reply
      are seen through [JSON.parse]. The game ([App]) is modelled on texts
      that are absent, rejected by the parser or serialisations of the type
      the source annotates them with. Module [Untyped] has the two services on
      texts that parse to any JSON value, which they pass on unchecked; the
      typed services are their restriction ([getLeaderboard_typed],
      [saveScoreToLeaderboard_typed], [getGameOverCommentary_typed]). *)

From Stdlib Require Import ZArith QArith Qround NArith List Bool Lia.
From Stdlib Require Import String Ascii Permutation Sorted Lqa.
Import ListNotations.
Local Open Scope Z_scope.

(* ================================================================== *)
(** ** JavaScript values and library functions used by the sources *)
(* ================================================================== *)

Module Js.

(** A string is its sequence of UTF-16 code units. *)
Definition jsstring : Type := list N.

(** The code units of an ASCII string literal of the source. *)
Definition lit (s : string) : jsstring :=
  map N_of_ascii (list_ascii_of_string s).

Fixpoint str_eqb (a b : jsstring) : bool :=
  match a, b with
  | [], [] => true
  | c :: a', d :: b' => N.eqb c d && str_eqb a' b'
  | _, _ => false
  end.

(** ECMA-262 WhiteSpace and LineTerminator code points: what
    [String.prototype.trim] strips. *)
Definition isWhiteSpace (c : N) : bool :=
  (N.eqb c 9 || N.eqb c 10 || N.eqb c 11 || N.eqb c 12 || N.eqb c 13
   || N.eqb c 32 || N.eqb c 160 || N.eqb c 5760
   || (N.leb 8192 c && N.leb c 8202)
   || N.eqb c 8232 || N.eqb c 8233 || N.eqb c 8239 || N.eqb c 8287
   || N.eqb c 12288 || N.eqb c 65279)%bool.

Fixpoint trimStart (s : jsstring) : jsstring :=
  match s with
  | [] => []
  | c :: s' => if isWhiteSpace c then trimStart s' else s
  end.

Definition trimEnd (s : jsstring) : jsstring := rev (trimStart (rev s)).

(** [s.trim()] *)
Definition trim (s : jsstring) : jsstring := trimEnd (trimStart s).

(** Truthiness of a string: only the empty string is falsy. *)
Definition truthy (s : jsstring) : bool :=
  match s with [] => false | _ :: _ => true end.

(** [a || b] on strings. *)
Definition or_else (a b : jsstring) : jsstring := if truthy a then a else b.

(** [Math.floor] and [Math.max]. *)
Definition Math_floor (q : Q) : Z := Qfloor q.
Definition Math_max (a b : Z) : Z := Z.max a b.

(** [arr.some(p)], [arr.slice(0, -1)], [arr.slice(0, n)], and the array left
    by [arr.pop()]. *)
Definition Array_some {A} (p : A -> bool) (arr : list A) : bool := existsb p arr.
Definition Array_slice_init {A} (arr : list A) : list A := removelast arr.
Definition Array_slice_to {A} (n : nat) (arr : list A) : list A := firstn n arr.
Definition Array_pop {A} (arr : list A) : list A := removelast arr.

(** [arr.sort(cmp)]. ECMAScript requires the sort to be stable, and for a
    consistent comparator the result is then determined: it is the one of
    this insertion sort, which places an element before the first later
    element that must not precede it. *)
Fixpoint sort_insert {A} (cmp : A -> A -> Z) (a : A) (sorted : list A) : list A :=
  match sorted with
  | [] => [a]
  | b :: rest => if cmp a b <=? 0 then a :: b :: rest
                 else b :: sort_insert cmp a rest
  end.

Fixpoint Array_sort {A} (cmp : A -> A -> Z) (arr : list A) : list A :=
  match arr with
  | [] => []
  | a :: rest => sort_insert cmp a (Array_sort cmp rest)
  end.

(** A text of the annotated type [A], seen through [JSON.parse]: either
    the parser rejects it with a [SyntaxError], or it is the serialisation
    [JSON.stringify v] of a value of the type the source annotates the
    parsed value with, which [JSON.parse] gives back. A text that parses to
    a value of another shape is not among these: [Untyped.Text] below holds
    them all. *)
Inductive JsonText (A : Type) : Type :=
| NotJson (raw : jsstring)
| JsonOf (v : A).
Arguments NotJson {A} raw.
Arguments JsonOf {A} v.

(** Only the empty text is falsy; no serialisation is empty. *)
Definition text_truthy {A} (t : JsonText A) : bool :=
  match t with
  | NotJson raw => truthy raw
  | JsonOf _ => true
  end.

(** Exceptions the modelled code can meet. *)
Inductive exn : Type :=
| SyntaxError                  (* JSON.parse on a text that is not JSON *)
| TypeError                    (* property read on undefined *)
| DOMException                 (* localStorage unavailable or over quota *)
| ApiError (msg : jsstring)    (* rejection of the generative call *)
| Error (msg : jsstring).      (* new Error(msg) *)

(** [JSON.parse] on a text of the annotated type; [Untyped.JSON_parse] is
    the parser on any text. *)
Definition JSON_parse {A} (t : JsonText A) : A + exn :=
  match t with
  | NotJson _ => inr SyntaxError
  | JsonOf v => inl v
  end.

Definition JSON_stringify {A} (v : A) : JsonText A := JsonOf v.

End Js.
Import Js.

(* ================================================================== *)
(** ** src/types.ts *)
(* ================================================================== *)

Inductive GameStatus : Type := IDLE | PLAYING | PAUSED | GAME_OVER.

Definition GameStatus_eqb (a b : GameStatus) : bool :=
  match a, b with
  | IDLE, IDLE | PLAYING, PLAYING | PAUSED, PAUSED | GAME_OVER, GAME_OVER => true
  | _, _ => false
  end.

Record Position : Type := mkPosition { x : Z; y : Z }.

Record GeminiAnalysis : Type := mkGeminiAnalysis {
  commentary : jsstring;
  grade : jsstring
}.

Module Leaderboard.
Record LeaderboardEntry : Type := mkEntry {
  name : jsstring;
  score : Z;
  date : jsstring
}.
End Leaderboard.

(* ================================================================== *)
(** ** Handlers as state-and-exception computations *)
(* ================================================================== *)

(** The outcome of running a piece of code from a state: it returns, it
    throws (the state keeps what was mutated before the throw), or the fuel
    given to a loop ran out before the loop ended. *)
Inductive Result (S A : Type) : Type :=
| Ok (a : A) (s : S)
| Raise (e : exn) (s : S)
| OutOfFuel.
Arguments Ok {S A} a s.
Arguments Raise {S A} e s.
Arguments OutOfFuel {S A}.

Definition JS (S A : Type) : Type := S -> Result S A.

Definition ret {S A} (a : A) : JS S A := fun s => Ok a s.

Definition bind {S A B} (c : JS S A) (k : A -> JS S B) : JS S B :=
  fun s => match c s with
           | Ok a s' => k a s'
           | Raise e s' => Raise e s'
           | OutOfFuel => OutOfFuel
           end.

Definition throw {S A} (e : exn) : JS S A := fun s => Raise e s.

Definition diverge {S A} : JS S A := fun _ => OutOfFuel.

(** [try { c } catch (e) { h e }] *)
Definition try_catch {S A} (c : JS S A) (h : exn -> JS S A) : JS S A :=
  fun s => match c s with
           | Ok a s' => Ok a s'
           | Raise e s' => h e s'
           | OutOfFuel => OutOfFuel
           end.

(** [try { c } finally { f }] *)
Definition try_finally {S A} (c : JS S A) (f : JS S unit) : JS S A :=
  fun s => match c s with
           | Ok a s' => bind f (fun _ => ret a) s'
           | Raise e s' => bind f (fun _ => throw e) s'
           | OutOfFuel => OutOfFuel
           end.

Definition reads {S A} (f : S -> A) : JS S A := fun s => Ok (f s) s.
Definition modify {S} (f : S -> S) : JS S unit := fun s => Ok tt (f s).

(** A value or an exception, lifted into a computation. *)
Definition completion {S A} (r : A + exn) : JS S A :=
  match r with inl a => ret a | inr e => throw e end.

Declare Scope js_scope.
Delimit Scope js_scope with js.
Notation "x <- c ;; k" := (bind c (fun x => k))
  (at level 61, c at next level, right associativity) : js_scope.
Notation "c ;; k" := (bind c (fun _ => k))
  (at level 61, right associativity) : js_scope.
Local Open Scope js_scope.

(* ================================================================== *)
(** ** The browser objects the code touches *)
(* ================================================================== *)

(** [localStorage]: the two keys the program uses, and whether reading or
    writing currently throws (storage disabled, quota exceeded). *)
Record Storage : Type := mkStorage {
  wpp_snake_leaderboard_v1 : option (JsonText (list Leaderboard.LeaderboardEntry));
  wpp_snake_player_name : option jsstring;
  getItem_throws : bool;
  setItem_throws : bool
}.

Record World : Type := mkWorld {
  localStorage : Storage;
  console : list (jsstring * exn);   (* console.error(msg, e), latest first *)
  alerts : list jsstring;            (* alert(msg), latest first *)
  draws : nat                        (* calls of Math.random() so far *)
}.

Definition console_error (msg : jsstring) (e : exn) : JS World unit :=
  modify (fun w => mkWorld (localStorage w) ((msg, e) :: console w) (alerts w) (draws w)).

Definition alert (msg : jsstring) : JS World unit :=
  modify (fun w => mkWorld (localStorage w) (console w) (msg :: alerts w) (draws w)).

Definition set_localStorage (st : Storage) (w : World) : World :=
  mkWorld st (console w) (alerts w) (draws w).

(** The successive results of [Math.random()]. *)
Definition RandomSource : Type := nat -> Q.

Definition Math_random (rnd : RandomSource) : JS World Q :=
  fun w => Ok (rnd (draws w))
              (mkWorld (localStorage w) (console w) (alerts w) (S (draws w))).

(* ================================================================== *)
(** ** src/services/storageService.ts *)
(* ================================================================== *)

Module storageService.
Import Leaderboard.

Definition MAX_ENTRIES : nat := 10.

(** [localStorage.getItem(STORAGE_KEY)] *)
Definition getItem_STORAGE_KEY : JS World (option (JsonText (list LeaderboardEntry))) :=
  fun w => if getItem_throws (localStorage w) then Raise DOMException w
           else Ok (wpp_snake_leaderboard_v1 (localStorage w)) w.

(** [localStorage.setItem(STORAGE_KEY, text)] *)
Definition setItem_STORAGE_KEY (text : JsonText (list LeaderboardEntry)) : JS World unit :=
  fun w => let st := localStorage w in
           if setItem_throws st then Raise DOMException w
           else Ok tt (set_localStorage
                         (mkStorage (Some text) (wpp_snake_player_name st)
                                    (getItem_throws st) (setItem_throws st)) w).

Definition getLeaderboard : JS World (list LeaderboardEntry) :=
  try_catch
    (data <- getItem_STORAGE_KEY ;;
     match data with
     | Some text => if text_truthy text then completion (JSON_parse text) else ret []
     | None => ret []
     end)
    (fun e => console_error (lit "Failed to load leaderboard") e ;; ret []).

(** [now] is [new Date().toISOString()] at the time of the call. *)
Definition saveScoreToLeaderboard (now : jsstring) (name : jsstring) (score : Z)
  : JS World (list LeaderboardEntry) :=
  current <- getLeaderboard ;;
  let newEntry := mkEntry (or_else (trim name) (lit "Anonymous Agent")) score now in
  let updated :=
    Array_slice_to MAX_ENTRIES
      (Array_sort (fun a b => Leaderboard.score b - Leaderboard.score a)
                  (current ++ [newEntry])) in
  try_catch (setItem_STORAGE_KEY (JSON_stringify updated))
            (fun e => console_error (lit "Failed to save leaderboard") e) ;;
  ret updated.

End storageService.

(* ================================================================== *)
(** ** src/services/geminiService.ts *)
(* ================================================================== *)

Module geminiService.

(** The part of the reply the code reads: [response.text], which may be
    undefined. *)
Record GenerateContentResponse : Type := mkResponse {
  text : option (JsonText GeminiAnalysis)
}.

Definition fallback : GeminiAnalysis :=
  mkGeminiAnalysis (lit "The Snake Deity is silent... (API Error)") (lit "?").

(** [reply] is how [await genAI.models.generateContent(...)] completes: with
    a response, or by throwing the rejection. [score] and [snakeLength] only
    enter the prompt. *)
Definition getGameOverCommentary (score snakeLength : Z)
    (reply : GenerateContentResponse + exn) : JS World GeminiAnalysis :=
  try_catch
    (response <- completion reply ;;
     match text response with
     | Some t =>
         if text_truthy t then completion (JSON_parse t)
         else throw (Error (lit "No response text"))
     | None => throw (Error (lit "No response text"))
     end)
    (fun error =>
       console_error (lit "Gemini API Error:") error ;;
       ret fallback).

End geminiService.

(* ================================================================== *)
(** ** The two services on JSON text of any shape *)
(* ================================================================== *)

(** [JSON.parse] checks no shape and neither service checks what it gets
    from it: [LeaderboardEntry[]] and [GeminiAnalysis] are TypeScript
    annotations, erased at run time. [storageService] and [geminiService]
    above are the two services on a text that is absent, rejected by
    [JSON.parse] or the serialisation of a value of the annotated type.
    This module is the same code on a text that may hold any JSON value:
    what [JSON.parse] yields is passed on as it is. *)
Module Untyped.

(** A JavaScript number: a finite double, kept as the rational it denotes,
    an infinity, or NaN. *)
Inductive Number : Type :=
| NaN
| Infinity (negative : bool)
| Finite (q : Q).

(** A value built of what JSON has. An object is the list of its own
    properties, no key twice. [JSON.parse] yields finite numbers and, for a
    literal beyond the range of a double, an infinity; it yields no NaN. *)
#[warnings="-register-all"] Inductive Json : Type :=
| JNull
| JBool (b : bool)
| JNumber (n : Number)
| JString (s : jsstring)
| JArray (items : list Json)
| JObject (props : list (jsstring * Json)).

(** A text seen through [JSON.parse]: the parser rejects it with a
    [SyntaxError], or accepts it and yields [v]. *)
Inductive Text : Type :=
| Malformed (raw : jsstring)
| Serialised (v : Json).

(** Only the empty text is falsy; no text that parses is empty. *)
Definition text_truthy (t : Text) : bool :=
  match t with
  | Malformed raw => truthy raw
  | Serialised _ => true
  end.

Definition JSON_parse (t : Text) : Json + exn :=
  match t with
  | Malformed _ => inr SyntaxError
  | Serialised v => inl v
  end.

(** What the text [JSON.stringify(v)] parses to: [v], with [null] for
    every number that is not finite. *)
Fixpoint JSON_value (v : Json) : Json :=
  match v with
  | JNumber (Finite _) => v
  | JNumber _ => JNull
  | JArray items => JArray (map JSON_value items)
  | JObject props => JObject (map (fun kv => (fst kv, JSON_value (snd kv))) props)
  | _ => v
  end.

Definition JSON_stringify (v : Json) : Text := Serialised (JSON_value v).

Record Storage : Type := mkStorage {
  wpp_snake_leaderboard_v1 : option Text;
  wpp_snake_player_name : option jsstring;
  getItem_throws : bool;
  setItem_throws : bool
}.

Record World : Type := mkWorld {
  localStorage : Storage;
  console : list (jsstring * exn);
  alerts : list jsstring;
  draws : nat
}.

Definition console_error (msg : jsstring) (e : exn) : JS World unit :=
  modify (fun w => mkWorld (localStorage w) ((msg, e) :: console w) (alerts w) (draws w)).

(** [a - b]. On finite doubles the rounded difference has the sign of the
    exact one, which is all the sort reads. *)
Definition subtract (a b : Number) : Number :=
  match a, b with
  | NaN, _ | _, NaN => NaN
  | Infinity n, Infinity m => if Bool.eqb n m then NaN else Infinity n
  | Infinity n, Finite _ => Infinity n
  | Finite _, Infinity m => Infinity (negb m)
  | Finite p, Finite q => Finite (p - q)
  end.

(** What [Array.prototype.sort] makes of a comparator's result: NaN counts
    as +0, and only the sign is read. *)
Definition sign (v : Number) : Z :=
  match v with
  | NaN => 0
  | Infinity n => if n then -1 else 1
  | Finite q => Z.sgn (Qnum q)
  end.

Definition is_number (v : Number) : bool :=
  match v with NaN => false | _ => true end.

(** What the program leaves to the JavaScript engine on values that are not
    leaderboard entries: the number a string converts to, the string an
    array or object converts to ([None] when the conversion throws a
    [TypeError]), and the order [sort] leaves an array in when the comparator
    is not consistent on it, which ECMAScript does not define. *)
Record Engine : Type := mkEngine {
  StringToNumber : jsstring -> Number;
  ToPrimitive : Json -> option jsstring;
  sort_unspecified : list Json -> list Json
}.

(** [ToNumber(v)]; [None] is [undefined]. *)
Definition ToNumber (eng : Engine) (v : option Json) : Number + exn :=
  match v with
  | None => inl NaN
  | Some JNull => inl (Finite 0)
  | Some (JBool b) => inl (Finite (if b then 1 else 0))
  | Some (JNumber n) => inl n
  | Some (JString s) => inl (StringToNumber eng s)
  | Some (JArray items) =>
      match ToPrimitive eng (JArray items) with
      | Some s => inl (StringToNumber eng s)
      | None => inr TypeError
      end
  | Some (JObject props) =>
      match ToPrimitive eng (JObject props) with
      | Some s => inl (StringToNumber eng s)
      | None => inr TypeError
      end
  end.

Fixpoint property (key : jsstring) (props : list (jsstring * Json)) : option Json :=
  match props with
  | [] => None
  | (k, v) :: rest => if str_eqb k key then Some v else property key rest
  end.

(** [v.score]: a [TypeError] on [null], [undefined] where there is no such
    property. *)
Definition get_score (v : Json) : option Json + exn :=
  match v with
  | JNull => inr TypeError
  | JObject props => inl (property (lit "score") props)
  | _ => inl None
  end.

(** The operand [v.score] of the comparator's subtraction, as a number. *)
Definition score_key (eng : Engine) (v : Json) : Number + exn :=
  match get_score v with
  | inl s => ToNumber eng s
  | inr e => inr e
  end.

Fixpoint score_keys (eng : Engine) (arr : list Json) : list Number + exn :=
  match arr with
  | [] => inl []
  | v :: rest =>
      match score_key eng v, score_keys eng rest with
      | inl k, inl ks => inl (k :: ks)
      | inr e, _ => inr e
      | _, inr e => inr e
      end
  end.

(** The comparator [(a, b) => b.score - a.score] on two elements paired
    with their keys, as the sort reads it. *)
Definition SortCompare (a b : Json * Number) : Z :=
  sign (subtract (snd b) (snd a)).

(** The comparator is consistent on an array exactly when no key is NaN or
    all its results are zero. *)
Definition consistent (keys : list Number) : bool :=
  forallb is_number keys ||
  forallb (fun a => forallb (fun b => sign (subtract b a) =? 0) keys) keys.

(** [arr.sort((a, b) => b.score - a.score)]. An array of fewer than two
    elements is left alone, the comparator not called. Otherwise every
    element meets the comparator, whose exception ends the sort; with a
    consistent comparator the sort is the stable one, else the order is the
    engine's. *)
Definition Array_sort_by_score (eng : Engine) (arr : list Json) : list Json + exn :=
  match arr with
  | [] => inl arr
  | [_] => inl arr
  | _ :: _ :: _ =>
      match score_keys eng arr with
      | inr e => inr e
      | inl keys =>
          if consistent keys
          then inl (map fst (Array_sort SortCompare (combine arr keys)))
          else inl (sort_unspecified eng arr)
      end
  end.

Definition isLeadingSurrogate (c : N) : bool := (N.leb 55296 c && N.leb c 56319)%bool.
Definition isTrailingSurrogate (c : N) : bool := (N.leb 56320 c && N.leb c 57343)%bool.

(** The strings a string iterates over: one per code point. *)
Fixpoint code_points (s : jsstring) : list jsstring :=
  match s with
  | [] => []
  | c :: s' =>
      match s' with
      | d :: s'' =>
          if (isLeadingSurrogate c && isTrailingSurrogate d)%bool
          then [c; d] :: code_points s''
          else [c] :: code_points s'
      | [] => [[c]]
      end
  end.

(** The elements [...v] spreads into an array literal: those of an array,
    the code points of a string; nothing else that JSON holds is iterable. *)
Definition spread (v : Json) : list Json + exn :=
  match v with
  | JArray items => inl items
  | JString s => inl (map JString (code_points s))
  | _ => inr TypeError
  end.

Definition MAX_ENTRIES : nat := 10.

Definition getItem_STORAGE_KEY : JS World (option Text) :=
  fun w => if getItem_throws (localStorage w) then Raise DOMException w
           else Ok (wpp_snake_leaderboard_v1 (localStorage w)) w.

Definition setItem_STORAGE_KEY (text : Text) : JS World unit :=
  fun w => let st := localStorage w in
           if setItem_throws st then Raise DOMException w
           else Ok tt (mkWorld (mkStorage (Some text) (wpp_snake_player_name st)
                                          (getItem_throws st) (setItem_throws st))
                               (console w) (alerts w) (draws w)).

Definition getLeaderboard : JS World Json :=
  try_catch
    (data <- getItem_STORAGE_KEY ;;
     match data with
     | Some text => if text_truthy text then completion (JSON_parse text)
                    else ret (JArray [])
     | None => ret (JArray [])
     end)
    (fun e => console_error (lit "Failed to load leaderboard") e ;; ret (JArray [])).

Definition saveScoreToLeaderboard (eng : Engine) (now : jsstring) (name : jsstring)
    (score : Z) : JS World (list Json) :=
  current <- getLeaderboard ;;
  let newEntry :=
    JObject [ (lit "name", JString (or_else (trim name) (lit "Anonymous Agent")));
              (lit "score", JNumber (Finite (inject_Z score)));
              (lit "date", JString now) ] in
  elements <- completion (spread current) ;;
  sorted <- completion (Array_sort_by_score eng (elements ++ [newEntry])) ;;
  let updated := Array_slice_to MAX_ENTRIES sorted in
  try_catch (setItem_STORAGE_KEY (JSON_stringify (JArray updated)))
            (fun e => console_error (lit "Failed to save leaderboard") e) ;;
  ret updated.

Record GenerateContentResponse : Type := mkResponse {
  text : option Text
}.

Definition fallback : Json :=
  JObject [ (lit "commentary", JString (lit "The Snake Deity is silent... (API Error)"));
            (lit "grade", JString (lit "?")) ].

Definition getGameOverCommentary (score snakeLength : Z)
    (reply : GenerateContentResponse + exn) : JS World Json :=
  try_catch
    (response <- completion reply ;;
     match text response with
     | Some t =>
         if text_truthy t then completion (JSON_parse t)
         else throw (Error (lit "No response text"))
     | None => throw (Error (lit "No response text"))
     end)
    (fun error =>
       console_error (lit "Gemini API Error:") error ;;
       ret fallback).

End Untyped.

(** A leaderboard entry and a commentary as the JSON values that
    [JSON.stringify] writes and [JSON.parse] reads. *)
Definition entry_json (e : Leaderboard.LeaderboardEntry) : Untyped.Json :=
  Untyped.JObject [ (lit "name", Untyped.JString (Leaderboard.name e));
                    (lit "score",
                     Untyped.JNumber (Untyped.Finite (inject_Z (Leaderboard.score e))));
                    (lit "date", Untyped.JString (Leaderboard.date e)) ].

Definition analysis_json (a : GeminiAnalysis) : Untyped.Json :=
  Untyped.JObject [ (lit "commentary", Untyped.JString (commentary a));
                    (lit "grade", Untyped.JString (grade a)) ].

(** A text of the annotated type among the texts of any shape. *)
Definition untyped_text {A} (to_json : A -> Untyped.Json) (t : JsonText A) : Untyped.Text :=
  match t with
  | NotJson raw => Untyped.Malformed raw
  | JsonOf v => Untyped.Serialised (to_json v)
  end.

Definition untyped_storage (st : Storage) : Untyped.Storage :=
  Untyped.mkStorage
    (option_map (untyped_text (fun l => Untyped.JArray (map entry_json l)))
                (wpp_snake_leaderboard_v1 st))
    (wpp_snake_player_name st) (getItem_throws st) (setItem_throws st).

(** The worlds whose leaderboard text is absent, rejected by [JSON.parse]
    or the serialisation of a list of entries. *)
Definition untyped_world (w : World) : Untyped.World :=
  Untyped.mkWorld (untyped_storage (localStorage w)) (console w) (alerts w) (draws w).

Definition untyped_reply (reply : geminiService.GenerateContentResponse + exn)
  : Untyped.GenerateContentResponse + exn :=
  match reply with
  | inl r => inl (Untyped.mkResponse
                    (option_map (untyped_text analysis_json) (geminiService.text r)))
  | inr e => inr e
  end.

(** An outcome of the typed service as an outcome of the untyped one. *)
Definition untyped_result {A B} (to_json : A -> B) (r : Result World A)
  : Result Untyped.World B :=
  match r with
  | Ok a w => Ok (to_json a) (untyped_world w)
  | Raise e w => Raise e (untyped_world w)
  | OutOfFuel => OutOfFuel
  end.



(* ================================================================== *)
(** ** src/App.tsx *)
(* ================================================================== *)

Module App.

Definition BOARD_SIZE : Z := 15.
Definition INITIAL_SNAKE : list Position :=
  [mkPosition 7 7; mkPosition 7 8; mkPosition 7 9].
Definition INITIAL_DIRECTION : Position := mkPosition 0 (-1).
Definition BASE_SPEED : Z := 150.

(** [seg.x === p.x && seg.y === p.y] *)
Definition same_cell (p seg : Position) : bool :=
  (x seg =? x p) && (y seg =? y p).

(** The [while (true)] loop runs at most [fuel] rounds; each round draws two
    random numbers. *)
Fixpoint getRandomPosition (fuel : nat) (rnd : RandomSource) (snake : list Position)
  : JS World Position :=
  match fuel with
  | O => diverge
  | S fuel' =>
      rx <- Math_random rnd ;;
      ry <- Math_random rnd ;;
      let newPos := mkPosition (Math_floor (rx * inject_Z BOARD_SIZE))
                               (Math_floor (ry * inject_Z BOARD_SIZE)) in
      let collision := Array_some (same_cell newPos) snake in
      if negb collision then ret newPos
      else getRandomPosition fuel' rnd snake
  end.

(** The state hooks and refs of the component. [snakeRef.current] is not a
    field of its own: an effect copies [snake] into it after every render, so
    a handler reading it reads [snake]. *)
Record AppState : Type := mkApp {
  snake : list Position;
  food : Position;
  direction : Position;
  status : GameStatus;
  score : Z;
  highScore : Z;
  playerName : jsstring;
  leaderboard : list Leaderboard.LeaderboardEntry;
  geminiData : option GeminiAnalysis;
  isLoadingGemini : bool;
  directionRef : Position;
  nextDirectionRef : Position
}.

Definition initialState : AppState :=
  mkApp INITIAL_SNAKE (mkPosition 7 4) INITIAL_DIRECTION IDLE 0 0 [] [] None false
        INITIAL_DIRECTION INITIAL_DIRECTION.

Record Machine : Type := mkMachine { app : AppState; world : World }.

(** Run a computation on the browser objects, leaving the React state. *)
Definition liftW {A} (c : JS World A) : JS Machine A :=
  fun m => match c (world m) with
           | Ok a w => Ok a (mkMachine (app m) w)
           | Raise e w => Raise e (mkMachine (app m) w)
           | OutOfFuel => OutOfFuel
           end.

Definition get {A} (f : AppState -> A) : JS Machine A := reads (fun m => f (app m)).

Definition update (f : AppState -> AppState) : JS Machine unit :=
  modify (fun m => mkMachine (f (app m)) (world m)).

Definition setSnake (v : list Position) : JS Machine unit :=
  update (fun g => mkApp v (food g) (direction g) (status g) (score g) (highScore g)
    (playerName g) (leaderboard g) (geminiData g) (isLoadingGemini g)
    (directionRef g) (nextDirectionRef g)).
Definition setFood (v : Position) : JS Machine unit :=
  update (fun g => mkApp (snake g) v (direction g) (status g) (score g) (highScore g)
    (playerName g) (leaderboard g) (geminiData g) (isLoadingGemini g)
    (directionRef g) (nextDirectionRef g)).
Definition setDirection (v : Position) : JS Machine unit :=
  update (fun g => mkApp (snake g) (food g) v (status g) (score g) (highScore g)
    (playerName g) (leaderboard g) (geminiData g) (isLoadingGemini g)
    (directionRef g) (nextDirectionRef g)).
Definition setStatus (f : GameStatus -> GameStatus) : JS Machine unit :=
  update (fun g => mkApp (snake g) (food g) (direction g) (f (status g)) (score g)
    (highScore g) (playerName g) (leaderboard g) (geminiData g) (isLoadingGemini g)
    (directionRef g) (nextDirectionRef g)).
Definition setScore (f : Z -> Z) : JS Machine unit :=
  update (fun g => mkApp (snake g) (food g) (direction g) (status g) (f (score g))
    (highScore g) (playerName g) (leaderboard g) (geminiData g) (isLoadingGemini g)
    (directionRef g) (nextDirectionRef g)).
Definition setHighScore (v : Z) : JS Machine unit :=
  update (fun g => mkApp (snake g) (food g) (direction g) (status g) (score g) v
    (playerName g) (leaderboard g) (geminiData g) (isLoadingGemini g)
    (directionRef g) (nextDirectionRef g)).
Definition setPlayerName (v : jsstring) : JS Machine unit :=
  update (fun g => mkApp (snake g) (food g) (direction g) (status g) (score g)
    (highScore g) v (leaderboard g) (geminiData g) (isLoadingGemini g)
    (directionRef g) (nextDirectionRef g)).
Definition setLeaderboard (v : list Leaderboard.LeaderboardEntry) : JS Machine unit :=
  update (fun g => mkApp (snake g) (food g) (direction g) (status g) (score g)
    (highScore g) (playerName g) v (geminiData g) (isLoadingGemini g)
    (directionRef g) (nextDirectionRef g)).
Definition setGeminiData (v : option GeminiAnalysis) : JS Machine unit :=
  update (fun g => mkApp (snake g) (food g) (direction g) (status g) (score g)
    (highScore g) (playerName g) (leaderboard g) v (isLoadingGemini g)
    (directionRef g) (nextDirectionRef g)).
Definition setIsLoadingGemini (v : bool) : JS Machine unit :=
  update (fun g => mkApp (snake g) (food g) (direction g) (status g) (score g)
    (highScore g) (playerName g) (leaderboard g) (geminiData g) v
    (directionRef g) (nextDirectionRef g)).
(** [directionRef.current = v] and [nextDirectionRef.current = v] *)
Definition set_directionRef (v : Position) : JS Machine unit :=
  update (fun g => mkApp (snake g) (food g) (direction g) (status g) (score g)
    (highScore g) (playerName g) (leaderboard g) (geminiData g) (isLoadingGemini g)
    v (nextDirectionRef g)).
Definition set_nextDirectionRef (v : Position) : JS Machine unit :=
  update (fun g => mkApp (snake g) (food g) (direction g) (status g) (score g)
    (highScore g) (playerName g) (leaderboard g) (geminiData g) (isLoadingGemini g)
    (directionRef g) v).

(** [localStorage.setItem('wpp_snake_player_name', v)] *)
Definition setItem_player_name (v : jsstring) : JS World unit :=
  fun w => let st := localStorage w in
           if setItem_throws st then Raise DOMException w
           else Ok tt (set_localStorage
                         (mkStorage (wpp_snake_leaderboard_v1 st) (Some v)
                                    (getItem_throws st) (setItem_throws st)) w).

(** [localStorage.getItem('wpp_snake_player_name')] *)
Definition getItem_player_name : JS World (option jsstring) :=
  fun w => if getItem_throws (localStorage w) then Raise DOMException w
           else Ok (wpp_snake_player_name (localStorage w)) w.

(** The effect run on mount. *)
Definition onMount : JS Machine unit :=
  l <- liftW storageService.getLeaderboard ;;
  setLeaderboard l ;;
  savedName <- liftW getItem_player_name ;;
  match savedName with
  | Some n => if truthy n then setPlayerName n else ret tt
  | None => ret tt
  end.

Definition startGame (fuel : nat) (rnd : RandomSource) : JS Machine unit :=
  name <- get playerName ;;
  if negb (truthy (trim name)) then
    liftW (alert (lit "Please identify yourself, Agent."))
  else
    liftW (setItem_player_name name) ;;
    setSnake INITIAL_SNAKE ;;
    setDirection INITIAL_DIRECTION ;;
    set_directionRef INITIAL_DIRECTION ;;
    set_nextDirectionRef INITIAL_DIRECTION ;;
    setScore (fun _ => 0) ;;
    setStatus (fun _ => PLAYING) ;;
    p <- liftW (getRandomPosition fuel rnd INITIAL_SNAKE) ;;
    setFood p ;;
    setGeminiData None.

Definition togglePause : JS Machine unit :=
  setStatus (fun prev =>
    if GameStatus_eqb prev PLAYING then PAUSED
    else if GameStatus_eqb prev PAUSED then PLAYING
    else prev).

(** [handleGameOver] up to its [await]: everything before the commentary
    call suspends. [now] is the clock reading used by the leaderboard. *)
Definition handleGameOver (now : jsstring) : JS Machine unit :=
  setStatus (fun _ => GAME_OVER) ;;
  sc <- get score ;;
  hs <- get highScore ;;
  (if hs <? sc then setHighScore sc else ret tt) ;;
  name <- get playerName ;;
  newLeaderboard <- liftW (storageService.saveScoreToLeaderboard now name sc) ;;
  setLeaderboard newLeaderboard ;;
  setIsLoadingGemini true.

(** [handleGameOver] from its [await] on: [sc] and [len] are the arguments
    the call was made with, [reply] is how the generative call completed. *)
Definition handleGameOver_resume (sc len : Z)
    (reply : geminiService.GenerateContentResponse + exn) : JS Machine unit :=
  try_finally
    (try_catch
       (analysis <- liftW (geminiService.getGameOverCommentary sc len reply) ;;
        setGeminiData (Some analysis))
       (fun e => liftW (console_error (lit "Failed to get analysis") e)))
    (setIsLoadingGemini false).

Definition moveSnake (fuel : nat) (rnd : RandomSource) (now : jsstring) : JS Machine unit :=
  st <- get status ;;
  if negb (GameStatus_eqb st PLAYING) then ret tt else
  prevSnake <- get snake ;;
  let head := hd_error prevSnake in
  (* Apply buffered direction *)
  next <- get nextDirectionRef ;;
  set_directionRef next ;;
  dir <- get directionRef ;;
  setDirection dir ;;
  match head with
  | None => throw TypeError
  | Some head =>
    let newHead := mkPosition (x head + x dir) (y head + y dir) in
    (* 1. Wall Collision *)
    if (x newHead <? 0) || (x newHead >=? BOARD_SIZE)
       || (y newHead <? 0) || (y newHead >=? BOARD_SIZE)
    then handleGameOver now
    else
      (* 2. Determine if Eating *)
      fd <- get food ;;
      let isEating := (x newHead =? x fd) && (y newHead =? y fd) in
      (* 3. Self Collision *)
      let collisionBody := if isEating then prevSnake else Array_slice_init prevSnake in
      if Array_some (same_cell newHead) collisionBody then handleGameOver now
      else
        (* 4. Move & Update *)
        let newSnake := newHead :: prevSnake in
        if isEating then
          setScore (fun s => s + 10) ;;
          p <- liftW (getRandomPosition fuel rnd newSnake) ;;
          setFood p ;;
          setSnake newSnake
        else
          setSnake (Array_pop newSnake)
  end.

(** The interval the game-loop effect passes to [setInterval]. *)
Definition speed (score : Z) : Z :=
  Math_max 50 (BASE_SPEED - Math_floor (inject_Z score / 50) * 5).

Definition key_is (key : jsstring) (cases : list string) : bool :=
  existsb (fun c => str_eqb key (lit c)) cases.

Definition handleKeyDown (key : jsstring) : JS Machine unit :=
  if key_is key ["p"; "P"; "Escape"]%string then togglePause
  else
    st <- get status ;;
    if negb (GameStatus_eqb st PLAYING) then ret tt else
    currentDir <- get directionRef ;;
    if key_is key ["ArrowUp"; "w"; "W"]%string then
      if negb (y currentDir =? 1) then set_nextDirectionRef (mkPosition 0 (-1)) else ret tt
    else if key_is key ["ArrowDown"; "s"; "S"]%string then
      if negb (y currentDir =? -1) then set_nextDirectionRef (mkPosition 0 1) else ret tt
    else if key_is key ["ArrowLeft"; "a"; "A"]%string then
      if negb (x currentDir =? 1) then set_nextDirectionRef (mkPosition (-1) 0) else ret tt
    else if key_is key ["ArrowRight"; "d"; "D"]%string then
      if negb (x currentDir =? -1) then set_nextDirectionRef (mkPosition 1 0) else ret tt
    else ret tt.

End App.

(* ================================================================== *)
(** ** src/components/SceneComponents.tsx and the HUD of src/App.tsx *)
(* ================================================================== *)

Module SceneComponents.

Definition CELL_SIZE : Q := 1.
Definition BOARD_SIZE : Q := 15.
Definition BOARD_OFFSET : Q := (BOARD_SIZE * CELL_SIZE) / 2 - CELL_SIZE / 2.

(** The [x] and [z] of the group position [SnakeRenderer] gives a segment
    and [FoodRenderer] gives the food: the same two expressions in both. The
    numbers are integers and halves, exact in JavaScript as in [Q]. *)
Definition world_x (pos : Position) : Q := inject_Z (x pos) * CELL_SIZE - BOARD_OFFSET.
Definition world_z (pos : Position) : Q := inject_Z (y pos) * CELL_SIZE - BOARD_OFFSET.

(** [GameBoard]: half the side of the playable plane, which is centred on
    the origin. *)
Definition halfSize (size : Q) : Q := size / 2.

End SceneComponents.

(** The figure the HUD shows as high score:
    [Math.max(highScore, leaderboard[0]?.score || 0)]. *)
Definition displayedHighScore (g : App.AppState) : Z :=
  Math_max (App.highScore g)
           (match App.leaderboard g with
            | [] => 0
            | e :: _ => if Leaderboard.score e =? 0 then 0 else Leaderboard.score e
            end).

(* ================================================================== *)
(** ** Vocabulary of the specification *)
(* ================================================================== *)

Import App.

(** A cell of the 15 x 15 board. *)
Definition onBoard (p : Position) : Prop :=
  0 <= x p < BOARD_SIZE /\ 0 <= y p < BOARD_SIZE.

(** The cell next to [p] in direction [d]. *)
Definition advance (p d : Position) : Position :=
  mkPosition (x p + x d) (y p + y d).

Definition negate (d : Position) : Position := mkPosition (- x d) (- y d).

Definition Position_eqb (p q : Position) : bool := (x p =? x q) && (y p =? y q).

(** The four unit directions. *)
Definition unit_direction (d : Position) : Prop :=
  d = mkPosition 0 (-1) \/ d = mkPosition 0 1 \/
  d = mkPosition (-1) 0 \/ d = mkPosition 1 0.

(** The two direction refs of a session under way: both are unit vectors
    and the buffer is not the reverse of the active direction. *)
Definition steerable (g : AppState) : Prop :=
  unit_direction (directionRef g) /\
  unit_direction (nextDirectionRef g) /\
  nextDirectionRef g <> negate (directionRef g).

(** What every state of a running program satisfies. *)
Definition well_formed (g : AppState) : Prop := steerable g /\ snake g <> [].

(** One event of the program: a key press, a timer tick, a start command,
    a pause command or the arrival of the commentary. An event whose handler
    throws leaves the state the handler had reached. *)
Inductive event : Type :=
| KeyDown (key : jsstring)
| Tick (fuel : nat) (rnd : RandomSource) (now : jsstring)
| Start (fuel : nat) (rnd : RandomSource)
| Pause
| Commentary (sc len : Z) (reply : geminiService.GenerateContentResponse + exn).

Definition handler (e : event) : JS Machine unit :=
  match e with
  | KeyDown key => handleKeyDown key
  | Tick fuel rnd now => moveSnake fuel rnd now
  | Start fuel rnd => startGame fuel rnd
  | Pause => togglePause
  | Commentary sc len reply => handleGameOver_resume sc len reply
  end.

Inductive reachable : Machine -> Prop :=
| reachable_init w : reachable (mkMachine initialState w)
| reachable_name m name w :
    reachable m ->
    reachable (mkMachine
                 (mkApp (snake (app m)) (food (app m)) (direction (app m))
                        (status (app m)) (score (app m)) (highScore (app m)) name
                        (leaderboard (app m)) (geminiData (app m))
                        (isLoadingGemini (app m)) (directionRef (app m))
                        (nextDirectionRef (app m))) w)
| reachable_ok m e m' :
    reachable m -> handler e m = Ok tt m' -> reachable m'
| reachable_throw m e x m' :
    reachable m -> handler e m = Raise x m' -> reachable m'.

Definition lands_well (r : Result Machine unit) : Prop :=
  match r with
  | Ok _ m' | Raise _ m' => well_formed (app m')
  | OutOfFuel => True
  end.

(** The direction a key stands for: arrow keys and WASD; no other key is a
    direction key. *)
Definition keyDirection (key : jsstring) : option Position :=
  if key_is key ["ArrowUp"; "w"; "W"]%string then Some (mkPosition 0 (-1))
  else if key_is key ["ArrowDown"; "s"; "S"]%string then Some (mkPosition 0 1)
  else if key_is key ["ArrowLeft"; "a"; "A"]%string then Some (mkPosition (-1) 0)
  else if key_is key ["ArrowRight"; "d"; "D"]%string then Some (mkPosition 1 0)
  else None.

(** [Math.random()] returns a number in [0, 1). *)
Definition valid_random (rnd : RandomSource) : Prop :=
  forall n, (0 <= rnd n /\ rnd n < 1)%Q.

(** The cell drawn in round [k] of a rejection loop that starts after [d]
    earlier draws. *)
Definition candidate (rnd : RandomSource) (d k : nat) : Position :=
  mkPosition (Math_floor (rnd (d + 2 * k)%nat * inject_Z BOARD_SIZE))
             (Math_floor (rnd (S (d + 2 * k)) * inject_Z BOARD_SIZE)).

(** The world after [n] more calls of [Math.random()]. *)
Definition drawn (n : nat) (w : World) : World :=
  mkWorld (localStorage w) (console w) (alerts w) (n + draws w).

(** The snake occupies every cell of the board. *)
Definition board_full (snake : list Position) : Prop :=
  forall p, onBoard p -> In p snake.

(** A leaderboard in non-increasing order of score. *)
Definition sorted_desc (l : list Leaderboard.LeaderboardEntry) : Prop :=
  StronglySorted (fun a b => Leaderboard.score a >= Leaderboard.score b) l.

(** The list the store holds: the entries whose serialisation is under the
    leaderboard key; none when the key is absent, its text is not JSON, or
    reading throws. *)
Definition stored_leaderboard (st : Storage) : list Leaderboard.LeaderboardEntry :=
  if getItem_throws st then []
  else match wpp_snake_leaderboard_v1 st with
       | Some (JsonOf l) => l
       | _ => []
       end.

(** The store with [l] serialised under the leaderboard key. *)
Definition with_leaderboard (l : list Leaderboard.LeaderboardEntry) (st : Storage) : Storage :=
  mkStorage (Some (JsonOf l)) (wpp_snake_player_name st)
            (getItem_throws st) (setItem_throws st).

(** The top ten of [l] by score, ties in their order of arrival. *)
Definition top_ten (l : list Leaderboard.LeaderboardEntry)
  : list Leaderboard.LeaderboardEntry :=
  firstn 10 (Array_sort (fun a b => Leaderboard.score b - Leaderboard.score a) l).

(** A string that holds white space only. *)
Definition blank (s : jsstring) : Prop := Forall (fun c => isWhiteSpace c = true) s.

(** The wall test of the tick. *)
Definition off_board (p : Position) : bool :=
  (x p <? 0) || (x p >=? BOARD_SIZE) || (y p <? 0) || (y p >=? BOARD_SIZE).

(** The cells the new head is compared with: the whole body when the head
    lands on the food, the body without its tail cell otherwise. *)
Definition comparison_body (g : AppState) (newHead : Position) : list Position :=
  if Position_eqb newHead (food g) then snake g else removelast (snake g).

(** The state once the tick has made the buffered direction the active one. *)
Definition turned (g : AppState) : AppState :=
  mkApp (snake g) (food g) (nextDirectionRef g) (status g) (score g) (highScore g)
        (playerName g) (leaderboard g) (geminiData g) (isLoadingGemini g)
        (nextDirectionRef g) (nextDirectionRef g).

(** The state after an eating tick that placed the new food at [p]. *)
Definition grown (g : AppState) (newHead p : Position) : AppState :=
  mkApp (newHead :: snake g) p (nextDirectionRef g) (status g) (score g + 10)
        (highScore g) (playerName g) (leaderboard g) (geminiData g)
        (isLoadingGemini g) (nextDirectionRef g) (nextDirectionRef g).

(** The state after a tick that moved without eating. *)
Definition moved (g : AppState) (newHead : Position) : AppState :=
  mkApp (newHead :: removelast (snake g)) (food g) (nextDirectionRef g) (status g)
        (score g) (highScore g) (playerName g) (leaderboard g) (geminiData g)
        (isLoadingGemini g) (nextDirectionRef g) (nextDirectionRef g).

(** The state with [d] in the next-direction buffer. *)
Definition buffered (g : AppState) (d : Position) : AppState :=
  mkApp (snake g) (food g) (direction g) (status g) (score g) (highScore g)
        (playerName g) (leaderboard g) (geminiData g) (isLoadingGemini g)
        (directionRef g) d.

(** Key presses handled one after the other, no tick in between. *)
Fixpoint presses (keys : list jsstring) : JS Machine unit :=
  match keys with
  | [] => ret tt
  | key :: keys' => handleKeyDown key ;; presses keys'
  end.

(** The directions of the presses that are not the reverse of [active], in
    the order pressed. *)
Fixpoint accepted (active : Position) (keys : list jsstring) : list Position :=
  match keys with
  | [] => []
  | key :: keys' =>
      match keyDirection key with
      | Some d => if Position_eqb d (negate active) then accepted active keys'
                  else d :: accepted active keys'
      | None => accepted active keys'
      end
  end.

(** Every cell of the board, row by row. *)
Definition all_cells : list Position :=
  flat_map (fun r => map (fun c => mkPosition (Z.of_nat c) (Z.of_nat r)) (seq 0 15))
           (seq 0 15).

Definition board_fullb (snake : list Position) : bool :=
  forallb (fun c => existsb (Position_eqb c) snake) all_cells.

(** Cell [i] of the path that sweeps the board row by row, alternating
    direction: a snake lying along it fills the board. *)
Definition sweep (i : nat) : Position :=
  let r := Nat.div i 15 in
  let c := Nat.modulo i 15 in
  mkPosition (Z.of_nat (if Nat.even r then c else 14 - c)%nat) (Z.of_nat r).


(** Sample states: a world with an empty working store, and a game in
    progress on the initial snake with the food two cells ahead. *)
Definition world0 : World := mkWorld (mkStorage None None false false) [] [] 0.

Definition in_play (snake : list Position) (food dir : Position) : AppState :=
  mkApp snake food dir PLAYING 0 0 (lit "Alex") [] None false dir dir.

(** The last bite: the snake lies along the sweep with its head at (13,14)
    heading right, and the food is on the one free cell, (14,14). *)
Definition last_bite : AppState :=
  mkApp (rev (map sweep (seq 0 224))) (sweep 224) (mkPosition 1 0) PLAYING 2210 2210
        (lit "Alex") [] None false (mkPosition 1 0) (mkPosition 1 0).

(** A random source that makes the first round of the loop draw [p], when
    [d] numbers were drawn before. *)
Definition drawing (p : Position) (d : nat) : RandomSource :=
  fun n => if Nat.eqb n d then (x p # 15)%Q else (y p # 15)%Q.

(* ------------------------------------------------------------------ *)
(** *** Proof steps for the tick *)

Ltac tick_unfold :=
  unfold moveSnake, setSnake, setFood, setDirection, setScore, set_directionRef,
    update, get, modify, reads, bind, ret, throw, liftW.

Ltac tick_cbn :=
  cbn -[handleGameOver getRandomPosition Z.add Z.ltb Z.geb Z.eqb BOARD_SIZE
        removelast Array_some].

Ltac tick_open g :=
  destruct g as [sn fd dir st sc hs pn lb gd il dr nd]; simpl in *; subst;
  unfold off_board, advance, turned, grown, moved, comparison_body, Position_eqb;
  cbn [x y snake food direction status score highScore playerName leaderboard
       geminiData isLoadingGemini directionRef nextDirectionRef].

(** Events handled one after the other. *)
Fixpoint run (es : list event) : JS Machine unit :=
  match es with
  | [] => ret tt
  | e :: es' => handler e ;; run es'
  end.

Definition pause_key (key : jsstring) : bool := key_is key ["p"; "P"; "Escape"]%string.

(** An event that is neither a pause command nor a start command nor the
    arrival of a commentary: a tick, or a key that is not a pause key. *)
Definition tick_or_plain_key (e : event) : Prop :=
  match e with
  | Tick _ _ _ => True
  | KeyDown key => pause_key key = false
  | _ => False
  end.

(** Two cells that share a side. *)
Definition neighbours (p q : Position) : Prop :=
  Z.abs (x p - x q) + Z.abs (y p - y q) = 1.

(** Every segment lies next to the one behind it. *)
Fixpoint chain (l : list Position) : Prop :=
  match l with
  | p :: l' => match l' with
               | q :: _ => neighbours p q /\ chain l'
               | [] => True
               end
  | [] => True
  end.

(** While a session runs (PLAYING or PAUSED) the active direction is the
    step the head last took: head minus neck. *)
Definition aligned (g : AppState) : Prop :=
  status g = PLAYING \/ status g = PAUSED ->
  match snake g with
  | head :: neck :: _ =>
      directionRef g = mkPosition (x head - x neck) (y head - y neck)
  | _ => False
  end.

Definition game_invariant (g : AppState) : Prop :=
  steerable g /\
  (3 <= List.length (snake g))%nat /\
  NoDup (snake g) /\
  Forall onBoard (snake g) /\
  chain (snake g) /\
  score g = 10 * (Z.of_nat (List.length (snake g)) - 3) /\
  ~ In (food g) (snake g) /\
  aligned g.

Definition lands_in (P : AppState -> Prop) (r : Result Machine unit) : Prop :=
  match r with
  | Ok _ m' | Raise _ m' => P (app m')
  | OutOfFuel => True
  end.

(** The state [handleGameOver] leaves, given the list the leaderboard
    service returned. *)
Definition game_over (g : AppState) (lb : list Leaderboard.LeaderboardEntry) : AppState :=
  mkApp (snake g) (food g) (direction g) GAME_OVER (score g)
        (Z.max (highScore g) (score g)) (playerName g) lb (geminiData g) true
        (directionRef g) (nextDirectionRef g).

(** The entry the leaderboard service makes of a name, a score and a clock
    reading. *)
Definition new_entry (now name : jsstring) (sc : Z) : Leaderboard.LeaderboardEntry :=
  Leaderboard.mkEntry (or_else (trim name) (lit "Anonymous Agent")) sc now.

(** The state with the commentary shown. *)
Definition with_analysis (g : AppState) (a : GeminiAnalysis) : AppState :=
  mkApp (snake g) (food g) (direction g) (status g) (score g) (highScore g)
        (playerName g) (leaderboard g) (Some a) false
        (directionRef g) (nextDirectionRef g).

(** The state after the mount effect read [lb] and the saved name. *)
Definition mounted (g : AppState) (lb : list Leaderboard.LeaderboardEntry)
    (saved : option jsstring) : AppState :=
  mkApp (snake g) (food g) (direction g) (status g) (score g) (highScore g)
        (match saved with
         | Some (c :: n) => c :: n
         | _ => playerName g
         end)
        lb (geminiData g) (isLoadingGemini g) (directionRef g) (nextDirectionRef g).

(** A store holding a full board: ten entries, scores 100 down to 10. *)
Definition full_board : list Leaderboard.LeaderboardEntry :=
  map (fun s => Leaderboard.mkEntry (lit "Ann") s [])
      [100; 90; 80; 70; 60; 50; 40; 30; 20; 10].

Definition world_full : World :=
  mkWorld (mkStorage (Some (JsonOf full_board)) None false false) [] [] 0.

(** The world after a save returned [updated] and wrote it. *)
Definition written (updated : list Leaderboard.LeaderboardEntry) (w : World) : World :=
  mkWorld (with_leaderboard updated (localStorage w)) (console w) (alerts w) (draws w).

(** The changes of status an event may make. *)
Definition allowed (e : event) (s s' : GameStatus) : Prop :=
  s' = s \/
  match e with
  | KeyDown key =>
      pause_key key = true /\
      ((s = PLAYING /\ s' = PAUSED) \/ (s = PAUSED /\ s' = PLAYING))
  | Pause => (s = PLAYING /\ s' = PAUSED) \/ (s = PAUSED /\ s' = PLAYING)
  | Tick _ _ _ => s = PLAYING /\ s' = GAME_OVER
  | Start _ _ => s' = PLAYING
  | Commentary _ _ _ => False
  end.

(* ================================================================== *)
(** ** Library facts *)
(* ================================================================== *)

Lemma Math_floor_div (a : Z) (b : positive) :
  Math_floor (inject_Z a / inject_Z (Zpos b)) = a / Zpos b.
Proof.
  unfold Math_floor, Qfloor, Qdiv, Qmult, Qinv, inject_Z. simpl.
  rewrite Z.mul_1_r. reflexivity.
Qed.

Lemma Math_floor_random (r : Q) :
  (0 <= r /\ r < 1)%Q -> 0 <= Math_floor (r * inject_Z BOARD_SIZE) < BOARD_SIZE.
Proof.
  intros [H0 H1]. unfold Math_floor, BOARD_SIZE. split.
  - rewrite <- (Qfloor_Z 0). apply Qfloor_resp_le.
    setoid_replace (inject_Z 0) with (0 * inject_Z 15)%Q by reflexivity.
    apply Qmult_le_compat_r; [exact H0 | discriminate].
  - rewrite Zlt_Qlt.
    apply Qle_lt_trans with (r * inject_Z 15)%Q; [apply Qfloor_le |].
    setoid_replace (inject_Z 15) with (1 * inject_Z 15)%Q at 2 by reflexivity.
    apply Qmult_lt_compat_r; [reflexivity | exact H1].
Qed.

Lemma same_cell_spec (p seg : Position) : same_cell p seg = true <-> seg = p.
Proof.
  unfold same_cell. rewrite andb_true_iff, !Z.eqb_eq.
  destruct p, seg; simpl. split.
  - intros [-> ->]. reflexivity.
  - intros H. injection H as -> ->. split; reflexivity.
Qed.

Lemma Array_some_In (p : Position) (l : list Position) :
  Array_some (same_cell p) l = true <-> In p l.
Proof.
  unfold Array_some. rewrite existsb_exists. split.
  - intros [seg [Hin Hc]]. apply same_cell_spec in Hc. subst. exact Hin.
  - intros Hin. exists p. split; [exact Hin | apply same_cell_spec; reflexivity].
Qed.

Lemma Array_some_not_In (p : Position) (l : list Position) :
  Array_some (same_cell p) l = false <-> ~ In p l.
Proof.
  rewrite <- Array_some_In. destruct (Array_some (same_cell p) l); split; intros H;
    try reflexivity; try discriminate; try (intros H'; discriminate).
  exfalso. apply H. reflexivity.
Qed.

(* ------------------------------------------------------------------ *)
(** *** The rejection loop of [getRandomPosition] *)

Lemma candidate_onBoard (rnd : RandomSource) (d k : nat) :
  valid_random rnd -> onBoard (candidate rnd d k).
Proof.
  intros Hr. unfold onBoard, candidate; simpl.
  split; apply Math_floor_random; apply Hr.
Qed.

Lemma getRandomPosition_round fuel rnd snake w :
  getRandomPosition (S fuel) rnd snake w =
  if Array_some (same_cell (candidate rnd (draws w) 0)) snake
  then getRandomPosition fuel rnd snake (drawn 2 w)
  else Ok (candidate rnd (draws w) 0) (drawn 2 w).
Proof.
  unfold candidate. simpl. rewrite Nat.add_0_r.
  unfold bind, Math_random. simpl.
  destruct (Array_some _ snake); reflexivity.
Qed.

Lemma candidate_drawn rnd w k :
  candidate rnd (draws (drawn 2 w)) k = candidate rnd (draws w) (S k).
Proof.
  unfold candidate, drawn. cbn [draws].
  replace (draws w + 2 * S k)%nat with (2 + draws w + 2 * k)%nat by lia.
  reflexivity.
Qed.

Lemma drawn_drawn a b w : drawn a (drawn b w) = drawn (a + b) w.
Proof. unfold drawn. simpl. rewrite Nat.add_assoc. reflexivity. Qed.

(** The loop returns the first free candidate, when the fuel reaches it. *)
Lemma getRandomPosition_first_free rnd snake k :
  forall fuel w,
    (forall j, (j < k)%nat -> In (candidate rnd (draws w) j) snake) ->
    ~ In (candidate rnd (draws w) k) snake ->
    (k < fuel)%nat ->
    getRandomPosition fuel rnd snake w =
      Ok (candidate rnd (draws w) k) (drawn (2 * S k) w).
Proof.
  induction k as [|k IH]; intros fuel w Hbusy Hfree Hfuel;
    (destruct fuel as [|fuel]; [lia |]); rewrite getRandomPosition_round.
  - apply Array_some_not_In in Hfree. rewrite Hfree. reflexivity.
  - assert (H0 : In (candidate rnd (draws w) 0) snake) by (apply Hbusy; lia).
    apply Array_some_In in H0. rewrite H0.
    rewrite (IH fuel (drawn 2 w)).
    + rewrite candidate_drawn, drawn_drawn. f_equal. f_equal. lia.
    + intros j Hj. rewrite candidate_drawn. apply Hbusy. lia.
    + rewrite candidate_drawn. exact Hfree.
    + lia.
Qed.

(** Whatever the loop returns is the first free candidate. *)
Lemma getRandomPosition_Ok_inv rnd snake :
  forall fuel w p w',
    getRandomPosition fuel rnd snake w = Ok p w' ->
    exists k, (k < fuel)%nat /\ p = candidate rnd (draws w) k /\
              w' = drawn (2 * S k) w /\ ~ In p snake /\
              (forall j, (j < k)%nat -> In (candidate rnd (draws w) j) snake).
Proof.
  induction fuel as [|fuel IH]; intros w p w' H; [discriminate |].
  rewrite getRandomPosition_round in H.
  destruct (Array_some (same_cell (candidate rnd (draws w) 0)) snake) eqn:Hc.
  - apply IH in H. destruct H as [k [Hk [Hp [Hw [Hfree Hbusy]]]]].
    exists (S k). rewrite candidate_drawn in Hp. rewrite drawn_drawn in Hw.
    repeat split; try assumption; try lia.
    + rewrite Hw. f_equal. lia.
    + intros [|j] Hj.
      * apply Array_some_In. exact Hc.
      * rewrite <- candidate_drawn. apply Hbusy. lia.
  - injection H as <- <-. exists 0%nat.
    repeat split; try lia.
    apply Array_some_not_In. exact Hc.
Qed.

Lemma getRandomPosition_no_throw rnd snake :
  forall fuel w e w', getRandomPosition fuel rnd snake w <> Raise e w'.
Proof.
  induction fuel as [|fuel IH]; intros w e w'; [discriminate |].
  rewrite getRandomPosition_round.
  destruct (Array_some _ snake); [apply IH | discriminate].
Qed.

(** On a full board every candidate is rejected: the loop has no exit. *)
Lemma getRandomPosition_full rnd snake :
  valid_random rnd -> board_full snake ->
  forall fuel w, getRandomPosition fuel rnd snake w = OutOfFuel.
Proof.
  intros Hr Hfull. induction fuel as [|fuel IH]; intros w; [reflexivity |].
  rewrite getRandomPosition_round.
  assert (H : In (candidate rnd (draws w) 0) snake)
    by (apply Hfull, candidate_onBoard, Hr).
  apply Array_some_In in H. rewrite H. apply IH.
Qed.

(* ------------------------------------------------------------------ *)
(** *** The leaderboard store *)

Lemma getLeaderboard_returns (w : World) :
  exists c, storageService.getLeaderboard w =
            Ok (stored_leaderboard (localStorage w))
               (mkWorld (localStorage w) c (alerts w) (draws w)).
Proof.
  destruct w as [[cell pn gt st] c a d].
  unfold storageService.getLeaderboard, storageService.getItem_STORAGE_KEY,
    stored_leaderboard, try_catch, bind. simpl.
  destruct gt; simpl; [eexists; reflexivity |].
  destruct cell as [[raw | l] |]; simpl; try (eexists; reflexivity).
  destruct raw; simpl; eexists; reflexivity.
Qed.

Lemma saveScoreToLeaderboard_returns now name sc (w : World) :
  let updated :=
    top_ten (stored_leaderboard (localStorage w)
             ++ [Leaderboard.mkEntry (or_else (trim name) (lit "Anonymous Agent")) sc now]) in
  exists c,
    storageService.saveScoreToLeaderboard now name sc w =
    Ok updated
       (mkWorld (if setItem_throws (localStorage w) then localStorage w
                 else with_leaderboard updated (localStorage w))
                c (alerts w) (draws w)).
Proof.
  intros updated. unfold storageService.saveScoreToLeaderboard.
  destruct (getLeaderboard_returns w) as [c Hc].
  unfold bind at 1. rewrite Hc.
  clear Hc. destruct w as [[cell pn gt st] c0 a d].
  unfold bind, try_catch, storageService.setItem_STORAGE_KEY.
  cbn [localStorage setItem_throws].
  destruct st; eexists; reflexivity.
Qed.

(* ------------------------------------------------------------------ *)
(** *** The tick, branch by branch *)

Lemma handleGameOver_returns now g w :
  exists lb w',
    handleGameOver now (mkMachine g w) =
    Ok tt (mkMachine
             (mkApp (snake g) (food g) (direction g) GAME_OVER (score g)
                    (if highScore g <? score g then score g else highScore g)
                    (playerName g) lb (geminiData g) true
                    (directionRef g) (nextDirectionRef g)) w')
    /\ draws w' = draws w /\ alerts w' = alerts w.
Proof.
  destruct g as [sn fd dir st sc hs pn lb gd il dr nd].
  destruct (saveScoreToLeaderboard_returns now pn sc w) as [c Hs].
  unfold handleGameOver, setStatus, setHighScore, setLeaderboard,
    setIsLoadingGemini, update, get, modify, reads, bind, ret, liftW.
  cbn -[storageService.saveScoreToLeaderboard Z.ltb].
  destruct (hs <? sc); cbn -[storageService.saveScoreToLeaderboard Z.ltb];
    rewrite Hs; eexists; eexists; (split; [reflexivity | split; reflexivity]).
Qed.

Section Tick.

Variables (fuel : nat) (rnd : RandomSource) (now : jsstring).
Variables (g : AppState) (w : World) (head : Position) (rest : list Position).
Hypothesis Hplaying : status g = PLAYING.
Hypothesis Hsnake : snake g = head :: rest.

Local Notation "'newHead'" := (advance head (nextDirectionRef g)).

Lemma moveSnake_wall :
  off_board newHead = true ->
  moveSnake fuel rnd now (mkMachine g w) =
  handleGameOver now (mkMachine (turned g) w).
Proof.
  tick_open g. intros H.
  tick_unfold. tick_cbn. rewrite H. reflexivity.
Qed.

Lemma moveSnake_self :
  off_board newHead = false ->
  Array_some (same_cell newHead) (comparison_body g newHead) = true ->
  moveSnake fuel rnd now (mkMachine g w) =
  handleGameOver now (mkMachine (turned g) w).
Proof.
  tick_open g. intros H Hc.
  tick_unfold. tick_cbn. rewrite H. tick_cbn.
  unfold Array_slice_init. rewrite Hc. reflexivity.
Qed.

Lemma moveSnake_move :
  off_board newHead = false ->
  Position_eqb newHead (food g) = false ->
  Array_some (same_cell newHead) (removelast (snake g)) = false ->
  moveSnake fuel rnd now (mkMachine g w) = Ok tt (mkMachine (moved g newHead) w).
Proof.
  tick_open g. intros H He Hc.
  tick_unfold. tick_cbn. rewrite H. tick_cbn. rewrite He.
  unfold Array_slice_init. rewrite Hc. unfold Array_pop. reflexivity.
Qed.

Lemma moveSnake_eat p w' :
  off_board newHead = false ->
  Position_eqb newHead (food g) = true ->
  Array_some (same_cell newHead) (snake g) = false ->
  getRandomPosition fuel rnd (newHead :: snake g) w = Ok p w' ->
  moveSnake fuel rnd now (mkMachine g w) =
  Ok tt (mkMachine (grown g newHead p) w').
Proof.
  tick_open g. intros H He Hc Hp.
  tick_unfold. tick_cbn. rewrite H. tick_cbn. rewrite He, Hc. tick_cbn.
  rewrite Hp. reflexivity.
Qed.

Lemma moveSnake_eat_inv m :
  off_board newHead = false ->
  Position_eqb newHead (food g) = true ->
  Array_some (same_cell newHead) (snake g) = false ->
  moveSnake fuel rnd now (mkMachine g w) = Ok tt m ->
  exists p w', getRandomPosition fuel rnd (newHead :: snake g) w = Ok p w' /\
               m = mkMachine (grown g newHead p) w'.
Proof.
  tick_open g. intros H He Hc.
  tick_unfold. tick_cbn. rewrite H. tick_cbn. rewrite He, Hc. tick_cbn.
  destruct (getRandomPosition _ _ _ _) as [p w' | e w' |] eqn:E; try discriminate.
  intros Hm. injection Hm as <-. exists p, w'. split; reflexivity.
Qed.

Lemma moveSnake_eat_out_of_fuel :
  off_board newHead = false ->
  Position_eqb newHead (food g) = true ->
  Array_some (same_cell newHead) (snake g) = false ->
  getRandomPosition fuel rnd (newHead :: snake g) w = OutOfFuel ->
  moveSnake fuel rnd now (mkMachine g w) = OutOfFuel.
Proof.
  tick_open g. intros H He Hc Hp.
  tick_unfold. tick_cbn. rewrite H. tick_cbn. rewrite He, Hc. tick_cbn.
  rewrite Hp. reflexivity.
Qed.

End Tick.

Lemma off_board_false (p : Position) : off_board p = false <-> onBoard p.
Proof.
  unfold off_board, onBoard, BOARD_SIZE.
  rewrite !orb_false_iff, !Z.ltb_ge, !Z.geb_leb, !Z.leb_gt. lia.
Qed.

Lemma off_board_true (p : Position) : off_board p = true <-> ~ onBoard p.
Proof.
  rewrite <- off_board_false. destruct (off_board p); split; intros H;
    try reflexivity; try discriminate.
  exfalso. apply H. reflexivity.
Qed.

Lemma Position_eqb_eq (p q : Position) : Position_eqb p q = true <-> p = q.
Proof.
  unfold Position_eqb. rewrite andb_true_iff, !Z.eqb_eq.
  destruct p, q; simpl. split.
  - intros [-> ->]. reflexivity.
  - intros H. injection H as -> ->. split; reflexivity.
Qed.

Lemma Position_eqb_neq (p q : Position) : Position_eqb p q = false <-> p <> q.
Proof.
  rewrite <- Position_eqb_eq. destruct (Position_eqb p q); split; intros H;
    try reflexivity; try discriminate.
  exfalso. apply H. reflexivity.
Qed.

Lemma removelast_length {A} (l : list A) :
  l <> [] -> S (List.length (removelast l)) = List.length l.
Proof.
  induction l as [|a [|b l'] IH]; intros H; [contradiction | reflexivity |].
  change (removelast (a :: b :: l')) with (a :: removelast (b :: l')).
  cbn [List.length]. f_equal. apply IH. discriminate.
Qed.

(** Some round within the fuel draws a free cell: the loop returns, and
    what it returns is free. *)
Lemma getRandomPosition_returns rnd snake k :
  forall fuel w,
    (k < fuel)%nat -> ~ In (candidate rnd (draws w) k) snake ->
    exists j, (j <= k)%nat /\
      getRandomPosition fuel rnd snake w =
        Ok (candidate rnd (draws w) j) (drawn (2 * S j) w) /\
      ~ In (candidate rnd (draws w) j) snake.
Proof.
  induction k as [|k IH]; intros fuel w Hfuel Hfree;
    (destruct fuel as [|fuel]; [lia |]).
  - exists 0%nat. split; [lia |]. split; [| exact Hfree].
    rewrite getRandomPosition_round.
    apply Array_some_not_In in Hfree. rewrite Hfree. reflexivity.
  - rewrite getRandomPosition_round.
    destruct (Array_some (same_cell (candidate rnd (draws w) 0)) snake) eqn:Hc.
    + destruct (IH fuel (drawn 2 w)) as [j [Hj [Hrun Hjfree]]]; [lia | |].
      * rewrite candidate_drawn. exact Hfree.
      * exists (S j). rewrite candidate_drawn in Hrun, Hjfree.
        rewrite drawn_drawn in Hrun. split; [lia |]. split; [| exact Hjfree].
        rewrite Hrun. f_equal. f_equal. lia.
    + exists 0%nat. split; [lia |]. split; [reflexivity |].
      apply Array_some_not_In. exact Hc.
Qed.

(* ================================================================== *)
(** ** Properties of the tick *)
(* ================================================================== *)

(** C1. A tick in PLAYING that meets neither a wall nor the body commits.
    When the new head is on the food and some round of the placement loop
    draws a free cell within the fuel, the tick returns with the score raised
    by exactly 10, the new head prepended and the tail kept (length plus one),
    and the food on a cell that no segment of the new snake, new head
    included, occupies; whenever such a tick returns at all it has these
    effects. When the new head is not on the food, the tick returns with the
    new head prepended and the tail removed: length, score and food are
    unchanged. Every tick that returns, in any status, leaves the length as
    it was or one larger. *)
Theorem C1_tick_commit :
  (forall fuel rnd now g w head rest,
     status g = PLAYING ->
     snake g = head :: rest ->
     let newHead := advance head (nextDirectionRef g) in
     onBoard newHead ->
     ~ In newHead (comparison_body g newHead) ->
     (newHead = food g ->
        (forall k, (k < fuel)%nat ->
           ~ In (candidate rnd (draws w) k) (newHead :: snake g) ->
           exists m', moveSnake fuel rnd now (mkMachine g w) = Ok tt m') /\
        (forall m', moveSnake fuel rnd now (mkMachine g w) = Ok tt m' ->
           score (app m') = score g + 10 /\
           snake (app m') = newHead :: snake g /\
           List.length (snake (app m')) = S (List.length (snake g)) /\
           ~ In (food (app m')) (snake (app m')) /\
           status (app m') = PLAYING)) /\
     (newHead <> food g ->
        exists m', moveSnake fuel rnd now (mkMachine g w) = Ok tt m' /\
          snake (app m') = newHead :: removelast (snake g) /\
          List.length (snake (app m')) = List.length (snake g) /\
          score (app m') = score g /\
          food (app m') = food g /\
          status (app m') = PLAYING)) /\
  (forall fuel rnd now g w m',
     moveSnake fuel rnd now (mkMachine g w) = Ok tt m' ->
     List.length (snake (app m')) = List.length (snake g) \/
     List.length (snake (app m')) = S (List.length (snake g))).
Proof.
  split.
  - intros fuel rnd now g w head rest Hst Hsn newHead Hon Hfree.
    apply off_board_false in Hon.
    unfold comparison_body in Hfree. split.
    + intros Heat. apply Position_eqb_eq in Heat. fold newHead in Heat.
      rewrite Heat in Hfree. apply Array_some_not_In in Hfree. split.
      * intros k Hk Hk_free.
        destruct (getRandomPosition_returns rnd (newHead :: snake g) k fuel w Hk Hk_free)
          as [j [_ [Hrun _]]].
        eexists. eapply moveSnake_eat; eassumption.
      * intros m' Hm.
        destruct (moveSnake_eat_inv fuel rnd now g w head rest Hst Hsn m' Hon Heat Hfree Hm)
          as [p [w' [Hp ->]]].
        apply getRandomPosition_Ok_inv in Hp.
        destruct Hp as [k [_ [_ [_ [Hpfree _]]]]].
        unfold grown; simpl. repeat split; try assumption. 
    + intros Hne. apply Position_eqb_neq in Hne. fold newHead in Hne.
      rewrite Hne in Hfree. apply Array_some_not_In in Hfree.
      exists (mkMachine (moved g newHead) w). split.
      * eapply moveSnake_move; eassumption.
      * unfold moved; simpl. repeat split; try assumption.
        rewrite removelast_length; [reflexivity | rewrite Hsn; discriminate].
  - intros fuel rnd now g w m' Hm.
    destruct (GameStatus_eqb (status g) PLAYING) eqn:Hst.
    + assert (Hp : status g = PLAYING) by (destruct (status g); try discriminate; reflexivity).
      destruct (snake g) as [|head rest] eqn:Hsn.
      * exfalso. revert Hm. destruct g as [sn fd dir st sc hs pn lb gd il dr nd].
        simpl in *. subst. tick_unfold. tick_cbn. discriminate.
      * set (newHead := advance head (nextDirectionRef g)).
        destruct (off_board newHead) eqn:Hoff.
        { rewrite (moveSnake_wall fuel rnd now g w head rest Hp Hsn Hoff) in Hm.
          destruct (handleGameOver_returns now (turned g) w) as [lb [w' [Hg _]]].
          rewrite Hg in Hm. injection Hm as <-. left. simpl. rewrite Hsn. reflexivity. }
        destruct (Array_some (same_cell newHead) (comparison_body g newHead)) eqn:Hc.
        { rewrite (moveSnake_self fuel rnd now g w head rest Hp Hsn Hoff Hc) in Hm.
          destruct (handleGameOver_returns now (turned g) w) as [lb [w' [Hg _]]].
          rewrite Hg in Hm. injection Hm as <-. left. simpl. rewrite Hsn. reflexivity. }
        unfold comparison_body in Hc.
        destruct (Position_eqb newHead (food g)) eqn:He.
        { destruct (moveSnake_eat_inv fuel rnd now g w head rest Hp Hsn m' Hoff He Hc Hm)
            as [p [w' [_ ->]]].
          right. simpl. rewrite Hsn. reflexivity. }
        { rewrite (moveSnake_move fuel rnd now g w head rest Hp Hsn Hoff He Hc) in Hm.
          injection Hm as <-. left. unfold moved; simpl.
          rewrite removelast_length; rewrite Hsn; [reflexivity | discriminate]. }
    + revert Hm. destruct g as [sn fd dir st sc hs pn lb gd il dr nd].
      simpl in *. tick_unfold. tick_cbn. rewrite Hst. tick_cbn.
      intros Hm. injection Hm as <-. left. reflexivity.
Qed.

Example C1_tick_commit_witness :
  (exists m', moveSnake 1 (fun _ => 0%Q) []
                (mkMachine (in_play INITIAL_SNAKE (mkPosition 7 6) INITIAL_DIRECTION) world0)
              = Ok tt m') /\
  (exists m', moveSnake 0 (fun _ => 0%Q) []
                (mkMachine (in_play INITIAL_SNAKE (mkPosition 7 4) INITIAL_DIRECTION) world0)
              = Ok tt m' /\
              snake (app m') = [mkPosition 7 6; mkPosition 7 7; mkPosition 7 8]).
Proof.
  destruct C1_tick_commit as [Hcommit _]. split.
  - destruct (Hcommit 1%nat (fun _ => 0%Q) []
                (in_play INITIAL_SNAKE (mkPosition 7 6) INITIAL_DIRECTION) world0
                (mkPosition 7 7) [mkPosition 7 8; mkPosition 7 9]) as [Heat _].
    + reflexivity.
    + reflexivity.
    + vm_compute. intuition discriminate.
    + vm_compute. intuition discriminate.
    + destruct Heat as [Hrun _]; [reflexivity |].
      apply (Hrun 0%nat); [lia |]. vm_compute. intuition discriminate.
  - destruct (Hcommit 0%nat (fun _ => 0%Q) []
                (in_play INITIAL_SNAKE (mkPosition 7 4) INITIAL_DIRECTION) world0
                (mkPosition 7 7) [mkPosition 7 8; mkPosition 7 9]) as [_ Hmove].
    + reflexivity.
    + reflexivity.
    + vm_compute. intuition discriminate.
    + vm_compute. intuition discriminate.
    + destruct Hmove as [m' [Hrun [Hsn _]]]; [discriminate |].
      exists m'. split; [exact Hrun | exact Hsn].
Defined.

(** C2. A tick in PLAYING whose new head, the head advanced by the buffered
    direction, lies outside the board on either axis returns with status
    GAME_OVER and leaves the snake, the food and the score as they were. *)
Theorem C2_wall_collision :
  forall fuel rnd now g w head rest,
    status g = PLAYING ->
    snake g = head :: rest ->
    ~ onBoard (advance head (nextDirectionRef g)) ->
    exists m', moveSnake fuel rnd now (mkMachine g w) = Ok tt m' /\
      status (app m') = GAME_OVER /\
      snake (app m') = snake g /\
      food (app m') = food g /\
      score (app m') = score g.
Proof.
  intros fuel rnd now g w head rest Hst Hsn Hoff.
  apply off_board_true in Hoff.
  rewrite (moveSnake_wall fuel rnd now g w head rest Hst Hsn Hoff).
  destruct (handleGameOver_returns now (turned g) w) as [lb [w' [Hg _]]].
  eexists. split; [exact Hg |]. simpl. repeat split.
Qed.

(** The scenario of the specification: head at (0,3) moving (-1,0). *)
Example C2_wall_collision_witness :
  exists m',
    moveSnake 0 (fun _ => 0%Q) []
      (mkMachine (in_play [mkPosition 0 3; mkPosition 1 3; mkPosition 2 3]
                          (mkPosition 7 4) (mkPosition (-1) 0)) world0)
    = Ok tt m' /\
    status (app m') = GAME_OVER /\
    snake (app m') = [mkPosition 0 3; mkPosition 1 3; mkPosition 2 3] /\
    food (app m') = mkPosition 7 4 /\
    score (app m') = 0.
Proof.
  apply (C2_wall_collision 0%nat (fun _ => 0%Q) []
           (in_play [mkPosition 0 3; mkPosition 1 3; mkPosition 2 3]
                    (mkPosition 7 4) (mkPosition (-1) 0)) world0
           (mkPosition 0 3) [mkPosition 1 3; mkPosition 2 3]).
  - reflexivity.
  - reflexivity.
  - vm_compute. intuition discriminate.
Defined.

(** C3. A tick in PLAYING whose new head is inside the board compares the
    new head with the whole current body when it lands on the food and with
    the body without its tail cell when it does not. If the new head is one
    of the compared cells the tick returns with status GAME_OVER and the
    snake, food and score unchanged; if it is none of them, a tick that
    returns leaves the status PLAYING. *)
Theorem C3_self_collision :
  forall fuel rnd now g w head rest,
    status g = PLAYING ->
    snake g = head :: rest ->
    let newHead := advance head (nextDirectionRef g) in
    let game_over :=
      exists m', moveSnake fuel rnd now (mkMachine g w) = Ok tt m' /\
        status (app m') = GAME_OVER /\
        snake (app m') = snake g /\
        food (app m') = food g /\
        score (app m') = score g in
    let goes_on :=
      forall m', moveSnake fuel rnd now (mkMachine g w) = Ok tt m' ->
        status (app m') = PLAYING in
    onBoard newHead ->
    (newHead = food g ->
       (In newHead (snake g) -> game_over) /\
       (~ In newHead (snake g) -> goes_on)) /\
    (newHead <> food g ->
       (In newHead (removelast (snake g)) -> game_over) /\
       (~ In newHead (removelast (snake g)) -> goes_on)).
Proof.
  intros fuel rnd now g w head rest Hst Hsn newHead game_over goes_on Hon.
  apply off_board_false in Hon.
  assert (Hhit : Array_some (same_cell newHead) (comparison_body g newHead) = true ->
                 game_over).
  { intros Hin.
    unfold game_over. rewrite (moveSnake_self fuel rnd now g w head rest Hst Hsn Hon Hin).
    destruct (handleGameOver_returns now (turned g) w) as [lb [w' [Hg _]]].
    eexists. split; [exact Hg |]. simpl. repeat split. }
  unfold comparison_body in Hhit. fold newHead in Hhit. split.
  - intros He. apply Position_eqb_eq in He. rewrite He in Hhit. split.
    + intros Hin. apply Hhit, Array_some_In, Hin.
    + intros Hfree m' Hm. apply Array_some_not_In in Hfree.
      destruct (moveSnake_eat_inv fuel rnd now g w head rest Hst Hsn m' Hon He Hfree Hm)
        as [p [w' [_ ->]]].
      simpl. exact Hst.
  - intros He. apply Position_eqb_neq in He. rewrite He in Hhit. split.
    + intros Hin. apply Hhit, Array_some_In, Hin.
    + intros Hfree m' Hm. apply Array_some_not_In in Hfree.
      rewrite (moveSnake_move fuel rnd now g w head rest Hst Hsn Hon He Hfree) in Hm.
      injection Hm as <-. simpl. exact Hst.
Qed.

(** A snake curled on itself: the head at (5,5) turns into its own body at
    (5,6), which is not the tail cell, and the game is over; had (5,6) been
    the tail cell, the game would go on. *)
Example C3_self_collision_witness :
  (exists m',
     moveSnake 0 (fun _ => 0%Q) []
       (mkMachine (in_play [mkPosition 5 5; mkPosition 6 5; mkPosition 6 6;
                            mkPosition 5 6; mkPosition 4 6]
                           (mkPosition 7 4) (mkPosition 0 1)) world0)
     = Ok tt m' /\
     status (app m') = GAME_OVER /\
     snake (app m') = [mkPosition 5 5; mkPosition 6 5; mkPosition 6 6;
                       mkPosition 5 6; mkPosition 4 6] /\
     food (app m') = mkPosition 7 4 /\
     score (app m') = 0) /\
  status
    (app (mkMachine
            (mkApp [mkPosition 5 6; mkPosition 5 5; mkPosition 6 5; mkPosition 6 6]
                   (mkPosition 7 4) (mkPosition 0 1) PLAYING 0 0 (lit "Alex") []
                   None false (mkPosition 0 1) (mkPosition 0 1)) world0))
  = PLAYING.
Proof.
  split.
  - destruct (C3_self_collision 0%nat (fun _ => 0%Q) []
                (in_play [mkPosition 5 5; mkPosition 6 5; mkPosition 6 6;
                          mkPosition 5 6; mkPosition 4 6]
                         (mkPosition 7 4) (mkPosition 0 1)) world0
                (mkPosition 5 5)
                [mkPosition 6 5; mkPosition 6 6; mkPosition 5 6; mkPosition 4 6])
      as [_ Hmiss].
    + reflexivity.
    + reflexivity.
    + vm_compute. intuition discriminate.
    + destruct Hmiss as [Hhit _]; [discriminate |].
      apply Hhit. vm_compute. intuition.
  - destruct (C3_self_collision 0%nat (fun _ => 0%Q) []
                (in_play [mkPosition 5 5; mkPosition 6 5; mkPosition 6 6; mkPosition 5 6]
                         (mkPosition 7 4) (mkPosition 0 1)) world0
                (mkPosition 5 5)
                [mkPosition 6 5; mkPosition 6 6; mkPosition 5 6])
      as [_ Hmiss].
    + reflexivity.
    + reflexivity.
    + vm_compute. intuition discriminate.
    + destruct Hmiss as [_ Hfree]; [discriminate |].
      apply Hfree; [| reflexivity].
      vm_compute. intuition discriminate.
Defined.

(* ================================================================== *)
(** ** Properties of the keyboard handler *)
(* ================================================================== *)

Lemma str_eqb_eq (a b : jsstring) : str_eqb a b = true <-> a = b.
Proof.
  revert b. induction a as [|c a IH]; intros [|d b]; simpl;
    try (split; [discriminate | discriminate]); [split; reflexivity |].
  rewrite andb_true_iff, N.eqb_eq, IH. split.
  - intros [-> ->]. reflexivity.
  - intros H. injection H as -> ->. split; reflexivity.
Qed.

Lemma key_is_true (key : jsstring) (cases : list string) :
  key_is key cases = true -> In key (map lit cases).
Proof.
  unfold key_is. rewrite existsb_exists. intros [c [Hin Heq]].
  apply str_eqb_eq in Heq. subst. apply in_map. exact Hin.
Qed.

Lemma keyDirection_keys (key : jsstring) (d : Position) :
  keyDirection key = Some d ->
  In (key, d)
     [ (lit "ArrowUp", mkPosition 0 (-1)); (lit "w", mkPosition 0 (-1));
       (lit "W", mkPosition 0 (-1));
       (lit "ArrowDown", mkPosition 0 1); (lit "s", mkPosition 0 1);
       (lit "S", mkPosition 0 1);
       (lit "ArrowLeft", mkPosition (-1) 0); (lit "a", mkPosition (-1) 0);
       (lit "A", mkPosition (-1) 0);
       (lit "ArrowRight", mkPosition 1 0); (lit "d", mkPosition 1 0);
       (lit "D", mkPosition 1 0) ].
Proof.
  unfold keyDirection.
  destruct (key_is key ["ArrowUp"; "w"; "W"]%string) eqn:E1;
    [| destruct (key_is key ["ArrowDown"; "s"; "S"]%string) eqn:E2;
       [| destruct (key_is key ["ArrowLeft"; "a"; "A"]%string) eqn:E3;
          [| destruct (key_is key ["ArrowRight"; "d"; "D"]%string) eqn:E4;
             [| discriminate]]]];
    intros H; injection H as <-;
    match goal with E : key_is _ _ = true |- _ => apply key_is_true in E; simpl in E end;
    repeat match goal with E : _ \/ _ |- _ => destruct E as [<- | E] end;
    try contradiction; simpl; tauto.
Qed.

Lemma handleKeyDown_direction key d g w :
  status g = PLAYING ->
  unit_direction (directionRef g) ->
  keyDirection key = Some d ->
  handleKeyDown key (mkMachine g w) =
  Ok tt (mkMachine
           (buffered g (if Position_eqb d (negate (directionRef g))
                        then nextDirectionRef g else d)) w).
Proof.
  intros Hst Hunit Hkey. apply keyDirection_keys in Hkey.
  destruct g as [sn fd dir st sc hs pn lb gd il dr nd]. simpl in Hst, Hunit. subst st.
  unfold buffered. cbn [snake food direction status score highScore playerName
    leaderboard geminiData isLoadingGemini directionRef nextDirectionRef].
  simpl in Hkey.
  repeat match goal with H : _ \/ _ |- _ => destruct H as [H | H] end;
    try contradiction; injection Hkey as <- <-;
    destruct Hunit as [-> | [-> | [-> | ->]]]; reflexivity.
Qed.

Lemma last_cons {A} (a d : A) (l : list A) : last (a :: l) d = last l a.
Proof.
  revert a d. induction l as [|b l IH]; intros a d; [reflexivity |].
  change (last (a :: b :: l) d) with (last (b :: l) d).
  rewrite (IH b d), (IH b a). reflexivity.
Qed.

Lemma presses_buffer keys :
  forall g w,
    status g = PLAYING ->
    unit_direction (directionRef g) ->
    Forall (fun key => keyDirection key <> None) keys ->
    presses keys (mkMachine g w) =
    Ok tt (mkMachine
             (buffered g (last (accepted (directionRef g) keys) (nextDirectionRef g))) w).
Proof.
  induction keys as [|key keys IH]; intros g w Hst Hunit Hkeys.
  - destruct g; reflexivity.
  - inversion Hkeys as [|k ks Hk Hks]; subst.
    destruct (keyDirection key) as [d|] eqn:Hd; [| contradiction].
    cbn [presses]. unfold bind.
    rewrite (handleKeyDown_direction key d g w Hst Hunit Hd).
    rewrite IH; [| exact Hst | exact Hunit | exact Hks].
    cbn [accepted]. rewrite Hd.
    destruct g as [sn fd dir st sc hs pn lb gd il dr nd]. unfold buffered.
    cbn [snake food direction status score highScore playerName
      leaderboard geminiData isLoadingGemini directionRef nextDirectionRef].
    destruct (Position_eqb d (negate dr)); [reflexivity |].
    rewrite last_cons. reflexivity.
Qed.

Lemma moveSnake_applies_buffer fuel rnd now g w m' :
  status g = PLAYING ->
  moveSnake fuel rnd now (mkMachine g w) = Ok tt m' ->
  directionRef (app m') = nextDirectionRef g /\
  direction (app m') = nextDirectionRef g /\
  nextDirectionRef (app m') = nextDirectionRef g.
Proof.
  intros Hp Hm.
  destruct (snake g) as [|head rest] eqn:Hsn.
  - exfalso. revert Hm. destruct g as [sn fd dir st sc hs pn lb gd il dr nd].
    simpl in *. subst. tick_unfold. tick_cbn. discriminate.
  - set (newHead := advance head (nextDirectionRef g)).
    destruct (off_board newHead) eqn:Hoff.
    { rewrite (moveSnake_wall fuel rnd now g w head rest Hp Hsn Hoff) in Hm.
      destruct (handleGameOver_returns now (turned g) w) as [lb [w' [Hg _]]].
      rewrite Hg in Hm. injection Hm as <-. simpl. repeat split. }
    destruct (Array_some (same_cell newHead) (comparison_body g newHead)) eqn:Hc.
    { rewrite (moveSnake_self fuel rnd now g w head rest Hp Hsn Hoff Hc) in Hm.
      destruct (handleGameOver_returns now (turned g) w) as [lb [w' [Hg _]]].
      rewrite Hg in Hm. injection Hm as <-. simpl. repeat split. }
    unfold comparison_body in Hc.
    destruct (Position_eqb newHead (food g)) eqn:He.
    { destruct (moveSnake_eat_inv fuel rnd now g w head rest Hp Hsn m' Hoff He Hc Hm)
        as [p [w' [_ ->]]].
      simpl. repeat split. }
    { rewrite (moveSnake_move fuel rnd now g w head rest Hp Hsn Hoff He Hc) in Hm.
      injection Hm as <-. simpl. repeat split. }
Qed.

(** The direction refs stay well formed: a key press keeps the active
    direction and never buffers its reverse; a tick makes the buffer
    active. So the snake never reverses onto its neck. *)
Lemma handleKeyDown_steerable key g w :
  steerable g ->
  exists g', handleKeyDown key (mkMachine g w) = Ok tt (mkMachine g' w) /\
             steerable g' /\ directionRef g' = directionRef g /\
             snake g' = snake g.
Proof.
  destruct g as [sn fd dir st sc hs pn lb gd il dr nd].
  unfold steerable, unit_direction, negate. simpl.
  intros [Hd [Hn Hne]].
  unfold handleKeyDown, togglePause, setStatus, set_nextDirectionRef,
    update, get, modify, reads, bind, ret.
  destruct (key_is key ["p"; "P"; "Escape"]%string);
    [eexists; split; [reflexivity |]; simpl; tauto |].
  cbn -[key_is Z.eqb]. destruct st; cbn -[key_is Z.eqb];
    try (eexists; split; [reflexivity |]; simpl; tauto).
  destruct (key_is key ["ArrowUp"; "w"; "W"]%string);
    [| destruct (key_is key ["ArrowDown"; "s"; "S"]%string);
       [| destruct (key_is key ["ArrowLeft"; "a"; "A"]%string);
          [| destruct (key_is key ["ArrowRight"; "d"; "D"]%string)]]];
    destruct Hd as [-> | [-> | [-> | ->]]]; cbn;
    (eexists; split; [reflexivity |]); simpl;
    repeat split; auto 8; try exact Hne; discriminate.
Qed.

Lemma moveSnake_steerable fuel rnd now g w m' :
  status g = PLAYING -> steerable g ->
  moveSnake fuel rnd now (mkMachine g w) = Ok tt m' ->
  steerable (app m').
Proof.
  intros Hst [_ [Hn _]] Hm.
  destruct (moveSnake_applies_buffer fuel rnd now g w m' Hst Hm) as [Hd [_ Hb]].
  unfold steerable. rewrite Hd, Hb. split; [exact Hn |]. split; [exact Hn |].
  destruct Hn as [-> | [-> | [-> | ->]]]; discriminate.
Qed.

(** A tick in PLAYING returns with the buffer copied: at once when it ends
    the game or moves without eating, and when it eats once some round of
    the placement loop draws a free cell within the fuel. The step it takes
    is the buffered one. *)
Lemma moveSnake_copies_buffer fuel rnd now g w head rest :
  status g = PLAYING ->
  snake g = head :: rest ->
  let newHead := advance head (nextDirectionRef g) in
  (onBoard newHead -> newHead = food g -> ~ In newHead (snake g) ->
   exists k, (k < fuel)%nat /\
             ~ In (candidate rnd (draws w) k) (newHead :: snake g)) ->
  exists m',
    moveSnake fuel rnd now (mkMachine g w) = Ok tt m' /\
    directionRef (app m') = nextDirectionRef g /\
    direction (app m') = nextDirectionRef g /\
    nextDirectionRef (app m') = nextDirectionRef g /\
    (status (app m') = PLAYING -> hd_error (snake (app m')) = Some newHead).
Proof.
  intros Hp Hsn newHead Hfree.
  destruct (off_board newHead) eqn:Hoff.
  { rewrite (moveSnake_wall fuel rnd now g w head rest Hp Hsn Hoff).
    destruct (handleGameOver_returns now (turned g) w) as [lb [w' [Hg _]]].
    rewrite Hg. eexists. split; [reflexivity |]. simpl.
    repeat split. discriminate. }
  destruct (Array_some (same_cell newHead) (comparison_body g newHead)) eqn:Hc.
  { rewrite (moveSnake_self fuel rnd now g w head rest Hp Hsn Hoff Hc).
    destruct (handleGameOver_returns now (turned g) w) as [lb [w' [Hg _]]].
    rewrite Hg. eexists. split; [reflexivity |]. simpl.
    repeat split. discriminate. }
  unfold comparison_body in Hc.
  destruct (Position_eqb newHead (food g)) eqn:He.
  - destruct Hfree as [k [Hk Hk_free]].
    + apply off_board_false. exact Hoff.
    + apply Position_eqb_eq. exact He.
    + apply Array_some_not_In. exact Hc.
    + destruct (getRandomPosition_returns rnd (newHead :: snake g) k fuel w Hk Hk_free)
        as [j [_ [Hrun _]]].
      rewrite (moveSnake_eat fuel rnd now g w head rest Hp Hsn _ _ Hoff He Hc Hrun).
      eexists. split; [reflexivity |]. simpl. repeat split.
  - rewrite (moveSnake_move fuel rnd now g w head rest Hp Hsn Hoff He Hc).
    eexists. split; [reflexivity |]. simpl. repeat split.
Qed.

(** C4. While PLAYING, with a unit vector as active direction, a press of a
    direction key leaves the next-direction buffer as it is when the pressed
    direction is the negation of the active direction and sets it to the
    pressed direction otherwise, and changes nothing else. A tick in PLAYING
    returns with the buffer copied into the active direction and the buffer
    left as it was, and the step it takes is the buffered one (it returns at
    once unless it eats, and when it eats once a round of the food placement
    draws a free cell within the fuel). So any number of direction presses
    followed by a tick returns with one direction made active: the last
    press that was not a reversal of the direction active before, or the old
    buffer when there is none; when the game goes on, the head has moved one
    cell in that direction. *)
Theorem C4_direction_buffer :
  (forall key d g w,
     status g = PLAYING ->
     unit_direction (directionRef g) ->
     keyDirection key = Some d ->
     handleKeyDown key (mkMachine g w) =
     Ok tt (mkMachine
              (buffered g (if Position_eqb d (negate (directionRef g))
                           then nextDirectionRef g else d)) w)) /\
  (forall fuel rnd now g w head rest,
     status g = PLAYING ->
     snake g = head :: rest ->
     let newHead := advance head (nextDirectionRef g) in
     (onBoard newHead -> newHead = food g -> ~ In newHead (snake g) ->
      exists k, (k < fuel)%nat /\
                ~ In (candidate rnd (draws w) k) (newHead :: snake g)) ->
     exists m',
       moveSnake fuel rnd now (mkMachine g w) = Ok tt m' /\
       directionRef (app m') = nextDirectionRef g /\
       direction (app m') = nextDirectionRef g /\
       nextDirectionRef (app m') = nextDirectionRef g /\
       (status (app m') = PLAYING -> hd_error (snake (app m')) = Some newHead)) /\
  (forall keys fuel rnd now g w head rest,
     status g = PLAYING ->
     unit_direction (directionRef g) ->
     Forall (fun key => keyDirection key <> None) keys ->
     snake g = head :: rest ->
     let chosen := last (accepted (directionRef g) keys) (nextDirectionRef g) in
     let newHead := advance head chosen in
     (onBoard newHead -> newHead = food g -> ~ In newHead (snake g) ->
      exists k, (k < fuel)%nat /\
                ~ In (candidate rnd (draws w) k) (newHead :: snake g)) ->
     presses keys (mkMachine g w) = Ok tt (mkMachine (buffered g chosen) w) /\
     exists m',
       (presses keys ;; moveSnake fuel rnd now) (mkMachine g w) = Ok tt m' /\
       directionRef (app m') = chosen /\
       direction (app m') = chosen /\
       nextDirectionRef (app m') = chosen /\
       (status (app m') = PLAYING -> hd_error (snake (app m')) = Some newHead)).
Proof.
  split; [exact handleKeyDown_direction |].
  split; [exact moveSnake_copies_buffer |].
  intros keys fuel rnd now g w head rest Hst Hunit Hkeys Hsn chosen newHead Hfree.
  assert (Hbuf : presses keys (mkMachine g w) = Ok tt (mkMachine (buffered g chosen) w))
    by (apply presses_buffer; assumption).
  split; [exact Hbuf |].
  unfold bind. rewrite Hbuf.
  destruct (moveSnake_copies_buffer fuel rnd now (buffered g chosen) w head rest)
    as [m' [Hrun Hm']].
  - destruct g; exact Hst.
  - destruct g; exact Hsn.
  - destruct g; exact Hfree.
  - exists m'. split; [exact Hrun |]. destruct g; exact Hm'.
Qed.

(** Heading up, the player presses left, down (a reversal, dropped) and
    right before the next tick: the tick turns the snake right, from (7,7)
    to (8,7). *)
Example C4_direction_buffer_witness :
  presses [lit "ArrowLeft"; lit "s"; lit "D"]
    (mkMachine (in_play INITIAL_SNAKE (mkPosition 7 4) INITIAL_DIRECTION) world0)
  = Ok tt (mkMachine
             (buffered (in_play INITIAL_SNAKE (mkPosition 7 4) INITIAL_DIRECTION)
                       (mkPosition 1 0)) world0) /\
  exists m',
    (presses [lit "ArrowLeft"; lit "s"; lit "D"] ;; moveSnake 0 (fun _ => 0%Q) [])
      (mkMachine (in_play INITIAL_SNAKE (mkPosition 7 4) INITIAL_DIRECTION) world0)
    = Ok tt m' /\
    directionRef (app m') = mkPosition 1 0 /\
    direction (app m') = mkPosition 1 0 /\
    nextDirectionRef (app m') = mkPosition 1 0 /\
    (status (app m') = PLAYING -> hd_error (snake (app m')) = Some (mkPosition 8 7)).
Proof.
  destruct C4_direction_buffer as [_ [_ Hpresses]].
  apply (Hpresses [lit "ArrowLeft"; lit "s"; lit "D"] 0%nat (fun _ => 0%Q) []
           (in_play INITIAL_SNAKE (mkPosition 7 4) INITIAL_DIRECTION) world0
           (mkPosition 7 7) [mkPosition 7 8; mkPosition 7 9]).
  - reflexivity.
  - left. reflexivity.
  - repeat constructor; discriminate.
  - reflexivity.
  - intros _ Hfood. discriminate Hfood.
Defined.

(* ================================================================== *)
(** ** The tick interval *)
(* ================================================================== *)

(** C6. For every score the tick interval is
    max(50, 150 - floor(score / 50) * 5) milliseconds: 150 at score 0, 125
    at score 250, and 50 at score 2000, where the floor of 50 applies. *)
Theorem C6_speed :
  (forall sc, speed sc = Z.max 50 (150 - (sc / 50) * 5)) /\
  speed 0 = 150 /\ speed 250 = 125 /\ speed 2000 = 50.
Proof.
  split; [| repeat split; reflexivity].
  intros sc. unfold speed, Math_max, BASE_SPEED.
  change 50%Q with (inject_Z (Zpos 50)).
  rewrite Math_floor_div. reflexivity.
Qed.

(* ================================================================== *)
(** ** Properties of the leaderboard store *)
(* ================================================================== *)

Section SortByScore.

Import Leaderboard.

Local Notation "'by_score'" :=
  (fun a b : LeaderboardEntry => score b - score a) (only parsing).

Lemma sort_insert_perm {A} (cmp : A -> A -> Z) (a : A) (l : list A) :
  Permutation (sort_insert cmp a l) (a :: l).
Proof.
  induction l as [|b l IH]; simpl; [apply Permutation_refl |].
  destruct (cmp a b <=? 0); [apply Permutation_refl |].
  apply Permutation_trans with (b :: a :: l);
    [apply perm_skip, IH | apply perm_swap].
Qed.

Lemma Array_sort_perm {A} (cmp : A -> A -> Z) (l : list A) :
  Permutation (Array_sort cmp l) l.
Proof.
  induction l as [|a l IH]; simpl; [apply perm_nil |].
  apply Permutation_trans with (a :: Array_sort cmp l);
    [apply sort_insert_perm | apply perm_skip, IH].
Qed.

Lemma sort_insert_sorted (a : LeaderboardEntry) (l : list LeaderboardEntry) :
  sorted_desc l -> sorted_desc (sort_insert by_score a l).
Proof.
  unfold sorted_desc.
  induction l as [|b l IH]; intros Hs; simpl.
  - constructor; constructor.
  - inversion Hs as [|b' l' Hl Hb]; subst.
    destruct (Z.leb_spec (score b - score a) 0) as [Hle | Hgt].
    + constructor; [exact Hs |]. constructor; [lia |].
      eapply Forall_impl; [| exact Hb]. simpl. intros c Hc. lia.
    + constructor; [apply IH, Hl |].
      rewrite Forall_forall in *. intros e He.
      apply (Permutation_in e (sort_insert_perm _ a l)) in He.
      destruct He as [<- | He]; [lia | apply Hb, He].
Qed.

Lemma Array_sort_sorted (l : list LeaderboardEntry) :
  sorted_desc (Array_sort by_score l).
Proof.
  induction l as [|a l IH]; simpl; [constructor |].
  apply sort_insert_sorted, IH.
Qed.

(** The sort is stable: entries of equal score keep their order. *)
Lemma sort_insert_stable (s : Z) (a : LeaderboardEntry) (l : list LeaderboardEntry) :
  filter (fun e => score e =? s) (sort_insert by_score a l) =
  filter (fun e => score e =? s) (a :: l).
Proof.
  induction l as [|b l IH]; [reflexivity |].
  cbn [sort_insert].
  destruct (Z.leb_spec (score b - score a) 0) as [Hle | Hgt]; [reflexivity |].
  cbn [filter] in *. rewrite IH.
  destruct (Z.eqb_spec (score a) s), (Z.eqb_spec (score b) s); try reflexivity.
  lia.
Qed.

Lemma Array_sort_stable (s : Z) (l : list LeaderboardEntry) :
  filter (fun e => score e =? s) (Array_sort by_score l) =
  filter (fun e => score e =? s) l.
Proof.
  induction l as [|a l IH]; [reflexivity |].
  cbn [Array_sort]. rewrite sort_insert_stable.
  cbn [filter]. rewrite IH. reflexivity.
Qed.

Lemma firstn_In {A} (n : nat) (l : list A) (e : A) :
  In e (firstn n l) -> In e l.
Proof.
  revert n. induction l as [|a l IH]; intros [|n]; simpl; try tauto.
  intros [<- | H]; [left; reflexivity | right; eapply IH, H].
Qed.

Lemma firstn_sorted (n : nat) (l : list LeaderboardEntry) :
  sorted_desc l -> sorted_desc (firstn n l).
Proof.
  unfold sorted_desc. revert n.
  induction l as [|a l IH]; intros [|n] Hs; simpl; try constructor.
  - inversion Hs; subst. apply IH. assumption.
  - inversion Hs as [|a' l' Hl Ha]; subst.
    rewrite Forall_forall in *. intros e He. eapply Ha, firstn_In, He.
Qed.

End SortByScore.

Lemma or_else_trim (name : jsstring) :
  or_else (trim name) (lit "Anonymous Agent") =
  match trim name with
  | [] => lit "Anonymous Agent"
  | _ :: _ => trim name
  end.
Proof. unfold or_else. destruct (trim name); reflexivity. Qed.

(** C7. Every call of the save operation returns the list it read from the
    store with one entry appended (whose name is the trimmed input name, or
    'Anonymous Agent' when trimming leaves nothing), ranked by score in
    non-increasing order with every entry kept and entries of equal score in
    their order of arrival, and cut to the first 10; when the write goes
    through, that same list is what the store then holds. Saving 50, 90, 30
    and 90 again into an empty store yields the scores 90, 90, 50, 30. *)
Theorem C7_save_leaderboard :
  (forall now name sc w,
     let current := stored_leaderboard (localStorage w) in
     let entry :=
       Leaderboard.mkEntry
         (match trim name with [] => lit "Anonymous Agent" | _ :: _ => trim name end)
         sc now in
     exists updated w' ranked,
       (exists w1, storageService.getLeaderboard w = Ok current w1) /\
       storageService.saveScoreToLeaderboard now name sc w = Ok updated w' /\
       Permutation ranked (current ++ [entry]) /\
       sorted_desc ranked /\
       (forall s, filter (fun e => Leaderboard.score e =? s) ranked =
                  filter (fun e => Leaderboard.score e =? s) (current ++ [entry])) /\
       updated = firstn 10 ranked /\
       (List.length updated <= 10)%nat /\
       sorted_desc updated /\
       (setItem_throws (localStorage w) = false ->
        wpp_snake_leaderboard_v1 (localStorage w') = Some (JsonOf updated))) /\
  (forall w n1 n2 n3 n4 t1 t2 t3 t4,
     wpp_snake_leaderboard_v1 (localStorage w) = None ->
     getItem_throws (localStorage w) = false ->
     setItem_throws (localStorage w) = false ->
     exists l w',
       (storageService.saveScoreToLeaderboard t1 n1 50 ;;
        storageService.saveScoreToLeaderboard t2 n2 90 ;;
        storageService.saveScoreToLeaderboard t3 n3 30 ;;
        storageService.saveScoreToLeaderboard t4 n4 90) w = Ok l w' /\
       map Leaderboard.score l = [90; 90; 50; 30] /\
       sorted_desc l).
Proof.
  split.
  - intros now name sc w current entry.
    destruct (saveScoreToLeaderboard_returns now name sc w) as [c Hsave].
    destruct (getLeaderboard_returns w) as [c1 Hload].
    rewrite or_else_trim in Hsave. fold entry current in Hsave.
    eexists. eexists.
    exists (Array_sort (fun a b => Leaderboard.score b - Leaderboard.score a)
                       (current ++ [entry])).
    split; [eexists; exact Hload |].
    split; [exact Hsave |].
    split; [apply Array_sort_perm |].
    split; [apply Array_sort_sorted |].
    split; [intros s; apply Array_sort_stable |].
    split; [reflexivity |].
    split; [apply firstn_le_length |].
    split; [apply firstn_sorted, Array_sort_sorted |].
    intros Hw. cbn [localStorage]. rewrite Hw. reflexivity.
  - intros w n1 n2 n3 n4 t1 t2 t3 t4 Hcell Hget Hset.
    destruct w as [[cell pn gt st] c a d]. simpl in Hcell, Hget, Hset. subst.
    unfold bind, storageService.saveScoreToLeaderboard, storageService.getLeaderboard,
      storageService.getItem_STORAGE_KEY, storageService.setItem_STORAGE_KEY,
      try_catch, ret, set_localStorage, JSON_stringify, Array_slice_to.
    cbn -[trim or_else lit].
    eexists. eexists. split; [reflexivity |]. split; [reflexivity |].
    unfold sorted_desc.
    repeat (constructor; [| repeat (constructor; try (cbn; lia))]). constructor.
Qed.

Example C7_save_leaderboard_witness :
  exists l w',
    (storageService.saveScoreToLeaderboard [] (lit "Ann") 50 ;;
     storageService.saveScoreToLeaderboard [] (lit "Bob") 90 ;;
     storageService.saveScoreToLeaderboard [] (lit " ") 30 ;;
     storageService.saveScoreToLeaderboard [] (lit "Cy") 90) world0 = Ok l w' /\
    map Leaderboard.score l = [90; 90; 50; 30] /\
    sorted_desc l.
Proof.
  destruct C7_save_leaderboard as [_ Hexample].
  apply (Hexample world0); reflexivity.
Defined.

(* ------------------------------------------------------------------ *)
(** *** The typed services inside the untyped ones *)

Lemma sort_insert_map {A B} (f : A -> B) (cmpA : A -> A -> Z) (cmpB : B -> B -> Z) :
  (forall a b, (cmpB (f a) (f b) <=? 0) = (cmpA a b <=? 0)) ->
  forall a l, sort_insert cmpB (f a) (map f l) = map f (sort_insert cmpA a l).
Proof.
  intros Hcmp a l. induction l as [|b l IH]; [reflexivity |].
  cbn [map sort_insert]. rewrite Hcmp.
  destruct (cmpA a b <=? 0); [reflexivity |].
  cbn [map]. rewrite IH. reflexivity.
Qed.

Lemma Array_sort_map {A B} (f : A -> B) (cmpA : A -> A -> Z) (cmpB : B -> B -> Z) :
  (forall a b, (cmpB (f a) (f b) <=? 0) = (cmpA a b <=? 0)) ->
  forall l, Array_sort cmpB (map f l) = map f (Array_sort cmpA l).
Proof.
  intros Hcmp l. induction l as [|a l IH]; [reflexivity |].
  cbn [map Array_sort]. rewrite IH. apply sort_insert_map. exact Hcmp.
Qed.

(** The comparator reads the score of an entry, and on two entries has the
    sign of the difference of their scores. *)
Lemma score_key_entry eng (e : Leaderboard.LeaderboardEntry) :
  Untyped.score_key eng (entry_json e) =
  inl (Untyped.Finite (inject_Z (Leaderboard.score e))).
Proof. destruct e. reflexivity. Qed.

Lemma score_keys_entries eng (l : list Leaderboard.LeaderboardEntry) :
  Untyped.score_keys eng (map entry_json l) =
  inl (map (fun e => Untyped.Finite (inject_Z (Leaderboard.score e))) l).
Proof.
  induction l as [|e l IH]; [reflexivity |].
  cbn [map Untyped.score_keys]. rewrite score_key_entry, IH. reflexivity.
Qed.

Lemma consistent_entries (l : list Leaderboard.LeaderboardEntry) :
  Untyped.consistent
    (map (fun e => Untyped.Finite (inject_Z (Leaderboard.score e))) l) = true.
Proof.
  unfold Untyped.consistent. apply orb_true_iff. left.
  induction l as [|e l IH]; [reflexivity | exact IH].
Qed.

Lemma SortCompare_entries (a b : Z) (u v : Untyped.Json) :
  (Untyped.SortCompare (u, Untyped.Finite (inject_Z a))
                       (v, Untyped.Finite (inject_Z b)) <=? 0) = (b - a <=? 0).
Proof.
  unfold Untyped.SortCompare, Untyped.subtract, Untyped.sign. cbn [snd].
  assert (H : Qnum (inject_Z b - inject_Z a) = b - a) by (simpl; lia).
  rewrite H.
  destruct (Z.leb_spec (b - a) 0) as [Hle | Hgt].
  - apply Z.leb_le. apply Z.sgn_nonpos. exact Hle.
  - apply Z.leb_gt. rewrite Z.sgn_pos by exact Hgt. lia.
Qed.

Lemma combine_map {A B C} (f : A -> B) (k : A -> C) (l : list A) :
  combine (map f l) (map k l) = map (fun a => (f a, k a)) l.
Proof.
  induction l as [|a l IH]; [reflexivity |].
  cbn [map combine]. rewrite IH. reflexivity.
Qed.

(** On an array of entries the sort of the untyped service is the stable
    sort by score of the typed one. *)
Lemma Array_sort_by_score_entries eng (l : list Leaderboard.LeaderboardEntry) :
  Untyped.Array_sort_by_score eng (map entry_json l) =
  inl (map entry_json
           (Array_sort (fun a b => Leaderboard.score b - Leaderboard.score a) l)).
Proof.
  destruct l as [|a [|b l]]; [reflexivity | reflexivity |].
  unfold Untyped.Array_sort_by_score. cbn [map].
  change (entry_json a :: entry_json b :: map entry_json l)
    with (map entry_json (a :: b :: l)).
  rewrite score_keys_entries, consistent_entries, combine_map.
  rewrite (Array_sort_map
             (fun e => (entry_json e, Untyped.Finite (inject_Z (Leaderboard.score e))))
             (fun a b => Leaderboard.score b - Leaderboard.score a)).
  - rewrite map_map. reflexivity.
  - intros u v. apply SortCompare_entries.
Qed.

Lemma getLeaderboard_typed (w : World) :
  Untyped.getLeaderboard (untyped_world w) =
  untyped_result (fun l => Untyped.JArray (map entry_json l))
                 (storageService.getLeaderboard w).
Proof.
  destruct w as [[cell pn gt st] c a d].
  destruct gt; [reflexivity |].
  destruct cell as [[[|ch raw] | l] |]; reflexivity.
Qed.

(** [JSON.stringify] then [JSON.parse] gives a list of entries back. *)
Lemma JSON_value_entries (l : list Leaderboard.LeaderboardEntry) :
  Untyped.JSON_value (Untyped.JArray (map entry_json l)) =
  Untyped.JArray (map entry_json l).
Proof.
  cbn [Untyped.JSON_value]. f_equal. rewrite map_map.
  apply map_ext. intros e. destruct e. reflexivity.
Qed.

Lemma bind_Ok {S A B} (c : JS S A) (k : A -> JS S B) (s s' : S) (a : A) :
  c s = Ok a s' -> bind c k s = k a s'.
Proof. intros H. unfold bind. rewrite H. reflexivity. Qed.

Lemma saveScoreToLeaderboard_typed eng now name sc (w : World) :
  Untyped.saveScoreToLeaderboard eng now name sc (untyped_world w) =
  untyped_result (map entry_json)
                 (storageService.saveScoreToLeaderboard now name sc w).
Proof.
  destruct (getLeaderboard_returns w) as [c1 Hload].
  unfold Untyped.saveScoreToLeaderboard, storageService.saveScoreToLeaderboard.
  rewrite (bind_Ok storageService.getLeaderboard _ _ _ _ Hload).
  erewrite (bind_Ok Untyped.getLeaderboard);
    [| rewrite getLeaderboard_typed, Hload; reflexivity].
  erewrite bind_Ok; [| reflexivity].
  erewrite bind_Ok;
    [| change (Untyped.JObject
                 [(lit "name",
                   Untyped.JString (or_else (trim name) (lit "Anonymous Agent")));
                  (lit "score", Untyped.JNumber (Untyped.Finite (inject_Z sc)));
                  (lit "date", Untyped.JString now)])
         with (entry_json (Leaderboard.mkEntry
                             (or_else (trim name) (lit "Anonymous Agent")) sc now));
       change [entry_json (Leaderboard.mkEntry
                             (or_else (trim name) (lit "Anonymous Agent")) sc now)]
         with (map entry_json
                   [Leaderboard.mkEntry
                      (or_else (trim name) (lit "Anonymous Agent")) sc now]);
       rewrite <- map_app, Array_sort_by_score_entries; reflexivity].
  unfold Array_slice_to, Untyped.MAX_ENTRIES, storageService.MAX_ENTRIES.
  rewrite firstn_map. unfold Untyped.JSON_stringify. rewrite JSON_value_entries.
  destruct w as [[cell pn gt st] c a d].
  destruct st; reflexivity.
Qed.

Lemma getGameOverCommentary_typed sc len reply (w : World) :
  Untyped.getGameOverCommentary sc len (untyped_reply reply) (untyped_world w) =
  untyped_result analysis_json (geminiService.getGameOverCommentary sc len reply w).
Proof.
  destruct reply as [[[[[|ch raw] | v] |]] | e]; reflexivity.
Qed.

(** On text that parses, the load returns what [JSON.parse] yields, whatever
    its shape. *)
Lemma getLeaderboard_unchecked (W : Untyped.World) (v : Untyped.Json) :
  Untyped.getItem_throws (Untyped.localStorage W) = false ->
  Untyped.wpp_snake_leaderboard_v1 (Untyped.localStorage W)
    = Some (Untyped.Serialised v) ->
  Untyped.getLeaderboard W = Ok v W.
Proof.
  destruct W as [[cell pn gt st] c a d]. simpl. intros -> ->. reflexivity.
Qed.

(** The spread of the save sits outside its [try]: a stored value that is
    not iterable makes the save throw. *)
Lemma saveScoreToLeaderboard_not_iterable eng now name sc (W : Untyped.World)
    (v : Untyped.Json) :
  Untyped.getItem_throws (Untyped.localStorage W) = false ->
  Untyped.wpp_snake_leaderboard_v1 (Untyped.localStorage W)
    = Some (Untyped.Serialised v) ->
  Untyped.spread v = inr TypeError ->
  Untyped.saveScoreToLeaderboard eng now name sc W = Raise TypeError W.
Proof.
  intros Hget Hcell Hspread. unfold Untyped.saveScoreToLeaderboard.
  rewrite (bind_Ok Untyped.getLeaderboard _ _ _ _
             (getLeaderboard_unchecked W v Hget Hcell)).
  unfold bind at 1. rewrite Hspread. reflexivity.
Qed.




(* ================================================================== *)
(** ** Properties of the commentary call *)
(* ================================================================== *)

(** C9, as the code has it. Whatever the score and snake length, and
    however the generative call completes, [getGameOverCommentary] returns
    and never throws. When the call is rejected, the response carries no text
    or an empty one, or [JSON.parse] rejects the text, it logs the error and
    returns the fixed fallback, the pair whose grade is '?'. When the text
    parses, it returns what [JSON.parse] yields and logs nothing: the
    commentary and grade pair when the text serialises one. *)
Theorem C9_commentary_never_throws :
  (forall sc len reply W,
     exists v W',
       Untyped.getGameOverCommentary sc len reply W = Ok v W' /\
       match reply with
       | inl (Untyped.mkResponse (Some (Untyped.Serialised parsed))) =>
           v = parsed /\ W' = W
       | _ =>
           v = Untyped.fallback /\
           exists e, W' = Untyped.mkWorld (Untyped.localStorage W)
                            ((lit "Gemini API Error:", e) :: Untyped.console W)
                            (Untyped.alerts W) (Untyped.draws W)
       end) /\
  (forall sc len a W,
     Untyped.getGameOverCommentary sc len
       (inl (Untyped.mkResponse (Some (Untyped.Serialised (analysis_json a))))) W
     = Ok (analysis_json a) W) /\
  Untyped.fallback = analysis_json geminiService.fallback /\
  grade geminiService.fallback = lit "?".
Proof.
  split; [| split; [| split]]; try reflexivity.
  intros sc len reply W.
  destruct reply as [[[[[|ch raw] | v] |]] | e];
    eexists; eexists; (split; [reflexivity |]);
    try (split; reflexivity);
    (split; [reflexivity |]); eexists; reflexivity.
Qed.

(** Against C9 as the specification states it: the reply's text is
    [null]. The call returns [null], which is neither a commentary and grade
    pair nor the fallback, and logs nothing. *)
Example C9_counterexample :
  Untyped.getGameOverCommentary 0 3
    (inl (Untyped.mkResponse (Some (Untyped.Serialised Untyped.JNull))))
    (untyped_world world0)
  = Ok Untyped.JNull (untyped_world world0) /\
  (forall a, Untyped.JNull <> analysis_json a) /\
  Untyped.JNull <> Untyped.fallback.
Proof.
  split; [reflexivity |]. split; [intros a H; discriminate H | discriminate].
Qed.

Lemma getGameOverCommentary_returns sc len reply w :
  exists a w', geminiService.getGameOverCommentary sc len reply w = Ok a w'.
Proof.
  destruct reply as [[[[[|ch raw] | v] |]] | e]; eexists; eexists; reflexivity.
Qed.

(** The continuation of [handleGameOver] after the call, for a reply whose
    text is of the annotated type: it shows what the call returned, clears
    the loading flag and leaves the game alone. *)
Lemma handleGameOver_resume_no_throw sc len reply g w :
  exists g' w',
    handleGameOver_resume sc len reply (mkMachine g w) = Ok tt (mkMachine g' w') /\
    isLoadingGemini g' = false /\
    geminiData g' <> None /\
    status g' = status g /\ snake g' = snake g /\ food g' = food g /\
    score g' = score g /\
    directionRef g' = directionRef g /\ nextDirectionRef g' = nextDirectionRef g.
Proof.
  destruct (getGameOverCommentary_returns sc len reply w) as [a [w' Ha]].
  unfold handleGameOver_resume, try_finally, try_catch, bind, liftW,
    setGeminiData, setIsLoadingGemini, update, modify, ret.
  cbn -[geminiService.getGameOverCommentary]. rewrite Ha.
  eexists. eexists. split; [reflexivity |]. simpl.
  repeat split. discriminate.
Qed.

(* ================================================================== *)
(** ** Termination of the food placement *)
(* ================================================================== *)

Lemma all_cells_complete (p : Position) : onBoard p -> In p all_cells.
Proof.
  destruct p as [px py]. unfold onBoard, BOARD_SIZE, all_cells. simpl x; simpl y.
  intros [Hx Hy]. apply in_flat_map.
  exists (Z.to_nat py). split; [apply in_seq; lia |].
  apply in_map_iff. exists (Z.to_nat px). split; [| apply in_seq; lia].
  rewrite !Z2Nat.id by lia. reflexivity.
Qed.

Lemma all_cells_sound (p : Position) : In p all_cells -> onBoard p.
Proof.
  unfold all_cells, onBoard, BOARD_SIZE. intros H.
  apply in_flat_map in H. destruct H as [r [Hr H]].
  apply in_map_iff in H. destruct H as [c [<- Hc]].
  apply in_seq in Hr. apply in_seq in Hc. simpl. lia.
Qed.

Lemma board_fullb_spec (snake : list Position) :
  board_fullb snake = true -> board_full snake.
Proof.
  unfold board_fullb, board_full. rewrite forallb_forall.
  intros H p Hp. specialize (H p (all_cells_complete p Hp)).
  apply existsb_exists in H. destruct H as [q [Hq Heq]].
  apply Position_eqb_eq in Heq. subst. exact Hq.
Qed.

Lemma drawing_valid (p : Position) (d : nat) :
  onBoard p -> valid_random (drawing p d).
Proof.
  unfold onBoard, BOARD_SIZE, valid_random, drawing. intros [Hx Hy] n.
  destruct (Nat.eqb n d); unfold Qle, Qlt; simpl; lia.
Qed.

Lemma drawing_candidate (p : Position) (d : nat) :
  candidate (drawing p d) d 0 = p.
Proof.
  destruct p as [px py]. unfold candidate, drawing. simpl x; simpl y.
  rewrite Nat.add_0_r, Nat.eqb_refl.
  replace (Nat.eqb (S d) d) with false
    by (symmetry; apply Nat.eqb_neq; lia).
  unfold Math_floor, Qfloor, Qmult, inject_Z, BOARD_SIZE. simpl Qnum. simpl Qden.
  change (Z.pos (15 * 1)) with 15.
  rewrite !Z.div_mul by lia. reflexivity.
Qed.

(** C10. The board has 225 cells. The placement loop returns only a board
    cell that no segment of the given snake occupies, so it can return only
    if the snake leaves one of the 225 cells free; it does return as soon as
    one of its rounds draws a free cell, and for every free cell there is a
    run of the random source on which the first round returns it. When the
    snake occupies every cell of the board the loop rejects every draw and
    never returns, whatever the fuel; the eating tick that fills the board
    therefore never returns either. *)
Theorem C10_food_placement_termination :
  (List.length all_cells = 225%nat /\ forall p, onBoard p <-> In p all_cells) /\
  (forall rnd snake,
     valid_random rnd ->
     (forall fuel w p w',
        getRandomPosition fuel rnd snake w = Ok p w' ->
        onBoard p /\ ~ In p snake) /\
     (forall fuel w k,
        (k < fuel)%nat -> ~ In (candidate rnd (draws w) k) snake ->
        exists p w', getRandomPosition fuel rnd snake w = Ok p w' /\ ~ In p snake) /\
     (board_full snake ->
      forall fuel w, getRandomPosition fuel rnd snake w = OutOfFuel)) /\
  (forall snake p w,
     onBoard p -> ~ In p snake ->
     exists rnd, valid_random rnd /\
                 getRandomPosition 1 rnd snake w = Ok p (drawn 2 w)) /\
  (forall rnd fuel now g w head rest,
     valid_random rnd ->
     status g = PLAYING ->
     snake g = head :: rest ->
     let newHead := advance head (nextDirectionRef g) in
     onBoard newHead ->
     newHead = food g ->
     ~ In newHead (snake g) ->
     board_full (newHead :: snake g) ->
     moveSnake fuel rnd now (mkMachine g w) = OutOfFuel).
Proof.
  split; [| split; [| split]].
  - split; [reflexivity |]. intros p. split;
      [apply all_cells_complete | apply all_cells_sound].
  - intros rnd snake Hr. split; [| split].
    + intros fuel w p w' H. apply getRandomPosition_Ok_inv in H.
      destruct H as [k [_ [-> [_ [Hfree _]]]]].
      split; [apply candidate_onBoard, Hr | exact Hfree].
    + intros fuel w k Hk Hfree.
      destruct (getRandomPosition_returns rnd snake k fuel w Hk Hfree)
        as [j [_ [Hrun Hj]]].
      eexists. eexists. split; [exact Hrun | exact Hj].
    + intros Hfull. apply getRandomPosition_full; assumption.
  - intros snake p w Hon Hfree. exists (drawing p (draws w)).
    split; [apply drawing_valid, Hon |].
    rewrite (getRandomPosition_first_free (drawing p (draws w)) snake 0 1 w).
    + rewrite drawing_candidate. reflexivity.
    + intros j Hj. lia.
    + rewrite drawing_candidate. exact Hfree.
    + lia.
  - intros rnd fuel now g w head rest Hr Hst Hsn newHead Hon Heat Hfree Hfull.
    apply (moveSnake_eat_out_of_fuel fuel rnd now g w head rest Hst Hsn).
    + apply off_board_false, Hon.
    + apply Position_eqb_eq, Heat.
    + apply Array_some_not_In, Hfree.
    + apply getRandomPosition_full; assumption.
Qed.

Example C10_food_placement_termination_witness :
  moveSnake 1000 (fun _ => 0%Q) [] (mkMachine last_bite world0) = OutOfFuel.
Proof.
  destruct C10_food_placement_termination as [_ [_ [_ Htick]]].
  apply (Htick (fun _ => 0%Q) 1000%nat [] last_bite world0
               (sweep 223) (rev (map sweep (seq 0 223)))).
  - intros n. split; [unfold Qle; simpl; lia | reflexivity].
  - reflexivity.
  - vm_compute. reflexivity.
  - vm_compute. intuition discriminate.
  - vm_compute. reflexivity.
  - apply Array_some_not_In. vm_compute. reflexivity.
  - apply board_fullb_spec. vm_compute. reflexivity.
Defined.

(* ================================================================== *)
(** ** Starting a session *)
(* ================================================================== *)

Lemma trimStart_nil (s : jsstring) : trimStart s = [] <-> blank s.
Proof.
  unfold blank. induction s as [|c s IH]; simpl.
  - split; [constructor | reflexivity].
  - destruct (isWhiteSpace c) eqn:Hc.
    + rewrite IH. split; intros H.
      * constructor; assumption.
      * inversion H; assumption.
    + split; [discriminate |]. intros H. inversion H; congruence.
Qed.

Lemma trimStart_idempotent (s : jsstring) : trimStart (trimStart s) = trimStart s.
Proof.
  induction s as [|c s IH]; [reflexivity |]. simpl.
  destruct (isWhiteSpace c) eqn:Hc; [exact IH |].
  simpl. rewrite Hc. reflexivity.
Qed.

(** Trimming leaves nothing exactly of the strings that are empty or hold
    white space only. *)
Lemma trim_nil (s : jsstring) : trim s = [] <-> blank s.
Proof.
  unfold trim, trimEnd. split.
  - intros H. apply (f_equal (@rev N)) in H. rewrite rev_involutive in H.
    simpl in H. apply trimStart_nil in H. unfold blank in H.
    apply Forall_rev in H. rewrite rev_involutive in H.
    apply trimStart_nil in H. rewrite trimStart_idempotent in H.
    apply trimStart_nil. exact H.
  - intros H. apply trimStart_nil in H. rewrite H. reflexivity.
Qed.

Lemma truthy_trim (s : jsstring) : truthy (trim s) = false <-> blank s.
Proof.
  rewrite <- trim_nil. destruct (trim s); simpl; split; intros H;
    try reflexivity; discriminate.
Qed.

(** A start with a blank name: the prompt is shown and nothing else
    happens. *)
Lemma startGame_rejects fuel rnd g w :
  blank (playerName g) ->
  startGame fuel rnd (mkMachine g w) =
  Ok tt (mkMachine g (mkWorld (localStorage w) (console w)
                              (lit "Please identify yourself, Agent." :: alerts w)
                              (draws w))).
Proof.
  intros Hb. apply truthy_trim in Hb.
  destruct g as [sn fd dir st sc hs pn lb gd il dr nd]. simpl in Hb.
  cbv -[trim truthy lit getRandomPosition]. rewrite Hb. reflexivity.
Qed.

(** A start with a name, on a store that takes the write: the session is
    reset, from any status. *)
Lemma startGame_resets fuel rnd g w k :
  ~ blank (playerName g) ->
  setItem_throws (localStorage w) = false ->
  (k < fuel)%nat ->
  ~ In (candidate rnd (draws w) k) INITIAL_SNAKE ->
  exists p w',
    startGame fuel rnd (mkMachine g w) =
    Ok tt (mkMachine
             (mkApp INITIAL_SNAKE p INITIAL_DIRECTION PLAYING 0 (highScore g)
                    (playerName g) (leaderboard g) None (isLoadingGemini g)
                    INITIAL_DIRECTION INITIAL_DIRECTION) w') /\
    ~ In p INITIAL_SNAKE /\
    wpp_snake_player_name (localStorage w') = Some (playerName g).
Proof.
  intros Hb Hw Hk Hfree.
  assert (Ht : truthy (trim (playerName g)) = true).
  { destruct (truthy (trim (playerName g))) eqn:E; [reflexivity |].
    exfalso. apply Hb, truthy_trim, E. }
  destruct g as [sn fd dir st sc hs pn lb gd il dr nd]. simpl in Hb, Ht.
  destruct w as [[cell sv gt wt] c a d]. simpl in Hw, Hk, Hfree. subst wt.
  set (w1 := mkWorld (mkStorage cell (Some pn) gt false) c a d).
  destruct (getRandomPosition_returns rnd INITIAL_SNAKE k fuel w1 Hk Hfree)
    as [j [_ [Hrun Hj]]].
  unfold w1 in Hrun.
  cbv -[trim truthy lit jsstring getRandomPosition INITIAL_SNAKE INITIAL_DIRECTION].
  rewrite Ht, Hrun.
  eexists. eexists. split; [reflexivity |]. split; [exact Hj | reflexivity].
Qed.

(** A start with a name, on a store whose write throws: the exception
    leaves [startGame] before any state is set. *)
Lemma startGame_storage_failure fuel rnd g w :
  ~ blank (playerName g) ->
  setItem_throws (localStorage w) = true ->
  startGame fuel rnd (mkMachine g w) = Raise DOMException (mkMachine g w).
Proof.
  intros Hb Hw.
  assert (Ht : truthy (trim (playerName g)) = true).
  { destruct (truthy (trim (playerName g))) eqn:E; [reflexivity |].
    exfalso. apply Hb, truthy_trim, E. }
  destruct g as [sn fd dir st sc hs pn lb gd il dr nd]. simpl in Hb, Ht.
  destruct w as [[cell sv gt wt] c a d]. simpl in Hw. subst wt.
  cbv -[trim truthy lit getRandomPosition INITIAL_SNAKE INITIAL_DIRECTION].
  rewrite Ht. reflexivity.
Qed.

(** C5. The start command with the name "Alex" on a store that refuses
    writes (over quota, or writes disabled): [startGame] throws at the write
    of the player name, before anything is set. From IDLE the status stays
    IDLE; from GAME_OVER the status stays GAME_OVER and the old snake, score
    and analysis result stay. On a store that takes the write the same two
    commands reset the session as the specification describes. *)
Theorem C5_startGame_storage_failure :
  let idle := mkApp INITIAL_SNAKE (mkPosition 7 4) INITIAL_DIRECTION IDLE 0 0
                    (lit "Alex") [] None false INITIAL_DIRECTION INITIAL_DIRECTION in
  let over := mkApp [mkPosition 0 3; mkPosition 1 3; mkPosition 2 3; mkPosition 3 3]
                    (mkPosition 9 9) (mkPosition (-1) 0) GAME_OVER 10 10
                    (lit "Alex") [] (Some geminiService.fallback) false
                    (mkPosition (-1) 0) (mkPosition (-1) 0) in
  let fresh := mkApp [mkPosition 7 7; mkPosition 7 8; mkPosition 7 9] (mkPosition 0 0)
                     (mkPosition 0 (-1)) PLAYING 0 in
  let refusing := mkWorld (mkStorage None None false true) [] [] 0 in
  let written := mkWorld (mkStorage None (Some (lit "Alex")) false false) [] [] 2 in
  startGame 1 (fun _ => 0%Q) (mkMachine idle refusing)
    = Raise DOMException (mkMachine idle refusing) /\
  startGame 1 (fun _ => 0%Q) (mkMachine over refusing)
    = Raise DOMException (mkMachine over refusing) /\
  startGame 1 (fun _ => 0%Q) (mkMachine idle world0)
    = Ok tt (mkMachine
               (fresh 0 (lit "Alex") [] None false
                      (mkPosition 0 (-1)) (mkPosition 0 (-1))) written) /\
  startGame 1 (fun _ => 0%Q) (mkMachine over world0)
    = Ok tt (mkMachine
               (fresh 10 (lit "Alex") [] None false
                      (mkPosition 0 (-1)) (mkPosition 0 (-1))) written).
Proof.
  repeat split; reflexivity.
Qed.

(* ================================================================== *)
(** ** What holds in every reachable state *)
(* ================================================================== *)

Lemma unit_not_reverse (d : Position) : unit_direction d -> d <> negate d.
Proof. intros [-> | [-> | [-> | ->]]]; discriminate. Qed.

Lemma turned_well_formed g sn fd st sc hs pn lb gd il :
  unit_direction (nextDirectionRef g) -> sn <> [] ->
  well_formed (mkApp sn fd (nextDirectionRef g) st sc hs pn lb gd il
                     (nextDirectionRef g) (nextDirectionRef g)).
Proof.
  intros Hn Hne. repeat split; simpl; try assumption.
  apply unit_not_reverse, Hn.
Qed.

Lemma handleKeyDown_lands_well key g w :
  well_formed g -> lands_well (handleKeyDown key (mkMachine g w)).
Proof.
  intros [Hs Hne].
  destruct (handleKeyDown_steerable key g w Hs) as [g' [-> [Hs' [_ Hsn]]]].
  simpl. split; [exact Hs' | rewrite Hsn; exact Hne].
Qed.

Lemma moveSnake_lands_well fuel rnd now g w :
  well_formed g -> lands_well (moveSnake fuel rnd now (mkMachine g w)).
Proof.
  intros [[Hd [Hn Hrev]] Hne].
  destruct (GameStatus_eqb (status g) PLAYING) eqn:Hst.
  - assert (Hp : status g = PLAYING)
      by (destruct (status g); try discriminate; reflexivity).
    destruct (snake g) as [|head rest] eqn:Hsn; [contradiction |].
    set (newHead := advance head (nextDirectionRef g)).
    destruct (off_board newHead) eqn:Hoff.
    { rewrite (moveSnake_wall fuel rnd now g w head rest Hp Hsn Hoff).
      destruct (handleGameOver_returns now (turned g) w) as [lb [w' [-> _]]].
      simpl. apply turned_well_formed; [exact Hn | rewrite Hsn; discriminate]. }
    destruct (Array_some (same_cell newHead) (comparison_body g newHead)) eqn:Hc.
    { rewrite (moveSnake_self fuel rnd now g w head rest Hp Hsn Hoff Hc).
      destruct (handleGameOver_returns now (turned g) w) as [lb [w' [-> _]]].
      simpl. apply turned_well_formed; [exact Hn | rewrite Hsn; discriminate]. }
    unfold comparison_body in Hc.
    destruct (Position_eqb newHead (food g)) eqn:He.
    { destruct (getRandomPosition fuel rnd (newHead :: snake g) w)
        as [p w' | e w' |] eqn:Hp'.
      - rewrite (moveSnake_eat fuel rnd now g w head rest Hp Hsn p w' Hoff He Hc Hp').
        simpl. apply turned_well_formed; [exact Hn | discriminate].
      - exfalso. eapply getRandomPosition_no_throw, Hp'.
      - rewrite (moveSnake_eat_out_of_fuel fuel rnd now g w head rest Hp Hsn Hoff He Hc Hp').
        exact I. }
    { rewrite (moveSnake_move fuel rnd now g w head rest Hp Hsn Hoff He Hc).
      simpl. apply turned_well_formed; [exact Hn | discriminate]. }
  - destruct g as [sn fd dir st sc hs pn lb gd il dr nd]. simpl in *.
    tick_unfold. tick_cbn. rewrite Hst. tick_cbn.
    repeat split; assumption.
Qed.

Lemma startGame_lands_well fuel rnd g w :
  well_formed g -> lands_well (startGame fuel rnd (mkMachine g w)).
Proof.
  intros Hwf.
  destruct g as [sn fd dir st sc hs pn lb gd il dr nd].
  destruct w as [[cell sv gt wt] c a d].
  cbv -[trim truthy lit jsstring getRandomPosition INITIAL_SNAKE INITIAL_DIRECTION
        well_formed].
  destruct (truthy (trim pn)); [| exact Hwf].
  destruct wt; [exact Hwf |].
  destruct (getRandomPosition _ _ _ _) as [p w' | e w' |]; try exact I;
    unfold well_formed, steerable, unit_direction, negate, INITIAL_DIRECTION,
      INITIAL_SNAKE; simpl; repeat split; auto 8; discriminate.
Qed.

Lemma togglePause_lands_well g w :
  well_formed g -> lands_well (togglePause (mkMachine g w)).
Proof. intros Hwf. destruct g. exact Hwf. Qed.

Lemma handleGameOver_resume_lands_well sc len reply g w :
  well_formed g -> lands_well (handleGameOver_resume sc len reply (mkMachine g w)).
Proof.
  intros [[Hd [Hn Hrev]] Hne].
  destruct (handleGameOver_resume_no_throw sc len reply g w)
    as [g' [w' [-> [_ [_ [_ [Hsn [_ [_ [Hdr Hnd]]]]]]]]]].
  simpl. unfold well_formed, steerable. rewrite Hsn, Hdr, Hnd.
  repeat split; assumption.
Qed.

(** In every reachable state the snake is not empty, the active and the
    buffered direction are unit vectors, and the buffer is not the reverse
    of the active direction. *)
Lemma reachable_well_formed (m : Machine) : reachable m -> well_formed (app m).
Proof.
  assert (Hstep : forall e g w, well_formed g -> lands_well (handler e (mkMachine g w))).
  { intros [key | fuel rnd now | fuel rnd | | sc len reply] g w Hwf.
    - exact (handleKeyDown_lands_well key g w Hwf).
    - exact (moveSnake_lands_well fuel rnd now g w Hwf).
    - exact (startGame_lands_well fuel rnd g w Hwf).
    - exact (togglePause_lands_well g w Hwf).
    - exact (handleGameOver_resume_lands_well sc len reply g w Hwf). }
  induction 1 as [w | m name w Hm IH | m e m' Hm IH He | m e x m' Hm IH He].
  - unfold well_formed, steerable, unit_direction, negate. simpl.
    repeat split; auto 8; intros H; discriminate H.
  - exact IH.
  - destruct m as [g w]. specialize (Hstep e g w IH). rewrite He in Hstep. exact Hstep.
  - destruct m as [g w]. specialize (Hstep e g w IH). rewrite He in Hstep. exact Hstep.
Qed.

(* ================================================================== *)
(** ** Pausing *)
(* ================================================================== *)

Lemma moveSnake_not_playing fuel rnd now g w :
  status g <> PLAYING ->
  moveSnake fuel rnd now (mkMachine g w) = Ok tt (mkMachine g w).
Proof.
  intros H. destruct g as [sn fd dir st sc hs pn lb gd il dr nd].
  destruct st; try reflexivity. contradiction H. reflexivity.
Qed.

Lemma handleKeyDown_not_playing key g w :
  pause_key key = false ->
  status g <> PLAYING ->
  handleKeyDown key (mkMachine g w) = Ok tt (mkMachine g w).
Proof.
  intros Hk H. unfold handleKeyDown. unfold pause_key in Hk. rewrite Hk.
  destruct g as [sn fd dir st sc hs pn lb gd il dr nd].
  destruct st; try reflexivity. contradiction H. reflexivity.
Qed.

Lemma handleKeyDown_pause_key key g w :
  pause_key key = true ->
  handleKeyDown key (mkMachine g w) = togglePause (mkMachine g w).
Proof.
  intros Hk. unfold handleKeyDown. unfold pause_key in Hk. rewrite Hk. reflexivity.
Qed.

Lemma run_not_playing es :
  forall g w,
    status g <> PLAYING ->
    Forall tick_or_plain_key es ->
    run es (mkMachine g w) = Ok tt (mkMachine g w).
Proof.
  induction es as [|e es IH]; intros g w Hst Hes; [reflexivity |].
  inversion Hes as [|e' es' He Hes']; subst.
  cbn [run]. unfold bind.
  destruct e as [key | fuel rnd now | | |]; simpl in He; try contradiction;
    cbn [handler].
  - rewrite (handleKeyDown_not_playing key g w He Hst). apply IH; assumption.
  - rewrite (moveSnake_not_playing fuel rnd now g w Hst). apply IH; assumption.
Qed.

(** X1. Outside PLAYING nothing moves: in IDLE, PAUSED or GAME_OVER any
    run of timer ticks and of presses of keys other than the pause keys
    returns with the state, React state and browser objects alike, exactly
    as it was. *)
Theorem X1_inert_outside_playing :
  forall es g w,
    status g <> PLAYING ->
    Forall tick_or_plain_key es ->
    run es (mkMachine g w) = Ok tt (mkMachine g w).
Proof. exact run_not_playing. Qed.

Example X1_inert_outside_playing_witness :
  run [Tick 5 (fun _ => 0%Q) []; KeyDown (lit "ArrowLeft"); KeyDown (lit "x");
       Tick 5 (fun _ => 0%Q) []]
      (mkMachine initialState world0)
  = Ok tt (mkMachine initialState world0).
Proof.
  apply (X1_inert_outside_playing
           [Tick 5 (fun _ => 0%Q) []; KeyDown (lit "ArrowLeft"); KeyDown (lit "x");
            Tick 5 (fun _ => 0%Q) []] initialState world0).
  - discriminate.
  - repeat constructor.
Defined.

(** X2. Pausing freezes a game: from PLAYING, a pause key (p, P or
    Escape), then any ticks and other key presses, then a pause key again
    bring back exactly the state the game was paused in, direction buffer
    included. In IDLE and GAME_OVER a pause key changes nothing. *)
Theorem X2_pause_freezes_game :
  forall key1 key2 es g w,
    pause_key key1 = true ->
    pause_key key2 = true ->
    Forall tick_or_plain_key es ->
    (status g = PLAYING ->
     (handleKeyDown key1 ;; run es ;; handleKeyDown key2) (mkMachine g w)
     = Ok tt (mkMachine g w)) /\
    (status g = IDLE \/ status g = GAME_OVER ->
     handleKeyDown key1 (mkMachine g w) = Ok tt (mkMachine g w)).
Proof.
  intros key1 key2 es g w Hk1 Hk2 Hes.
  destruct g as [sn fd dir st sc hs pn lb gd il dr nd]. simpl. split.
  - intros ->. unfold bind. rewrite (handleKeyDown_pause_key key1 _ _ Hk1).
    cbn [togglePause]. unfold togglePause at 1, setStatus, update, modify.
    cbn [app world snake food direction status score highScore playerName
         leaderboard geminiData isLoadingGemini directionRef nextDirectionRef
         GameStatus_eqb].
    rewrite run_not_playing; [| discriminate | exact Hes].
    rewrite (handleKeyDown_pause_key key2 _ _ Hk2). reflexivity.
  - intros Hst. rewrite (handleKeyDown_pause_key key1 _ _ Hk1).
    destruct Hst as [-> | ->]; reflexivity.
Qed.

Example X2_pause_freezes_game_witness :
  (handleKeyDown (lit "p") ;;
   run [Tick 5 (fun _ => 0%Q) []; KeyDown (lit "ArrowLeft")] ;;
   handleKeyDown (lit "Escape"))
    (mkMachine (in_play INITIAL_SNAKE (mkPosition 7 4) INITIAL_DIRECTION) world0)
  = Ok tt (mkMachine (in_play INITIAL_SNAKE (mkPosition 7 4) INITIAL_DIRECTION) world0).
Proof.
  apply (X2_pause_freezes_game (lit "p") (lit "Escape")
           [Tick 5 (fun _ => 0%Q) []; KeyDown (lit "ArrowLeft")]
           (in_play INITIAL_SNAKE (mkPosition 7 4) INITIAL_DIRECTION) world0).
  - reflexivity.
  - reflexivity.
  - repeat constructor.
  - reflexivity.
Defined.

(* ================================================================== *)
(** ** The end of a game *)
(* ================================================================== *)

Lemma handleGameOver_saves now g w :
  let lb := top_ten (stored_leaderboard (localStorage w)
                     ++ [new_entry now (playerName g) (score g)]) in
  exists w',
    handleGameOver now (mkMachine g w) = Ok tt (mkMachine (game_over g lb) w') /\
    localStorage w' = (if setItem_throws (localStorage w) then localStorage w
                       else with_leaderboard lb (localStorage w)) /\
    alerts w' = alerts w /\ draws w' = draws w.
Proof.
  intros lb.
  destruct (saveScoreToLeaderboard_returns now (playerName g) (score g) w) as [c Hs].
  fold (new_entry now (playerName g) (score g)) in Hs. fold lb in Hs.
  destruct g as [sn fd dir st sc hs pn l0 gd il dr nd].
  cbn [playerName score] in *.
  eexists. split.
  - unfold handleGameOver, setStatus, setHighScore, setLeaderboard,
      setIsLoadingGemini, update, get, modify, reads, bind, ret, liftW, game_over.
    cbn -[storageService.saveScoreToLeaderboard Z.ltb Z.max lb].
    destruct (Z.ltb_spec hs sc) as [Hlt | Hge];
      cbn -[storageService.saveScoreToLeaderboard Z.ltb Z.max lb];
      rewrite Hs;
      [rewrite Z.max_r by lia | rewrite Z.max_l by lia]; reflexivity.
  - repeat split.
Qed.

(** X3. [handleGameOver] up to its [await], on a store whose leaderboard
    text is absent, rejected by [JSON.parse] or the serialisation of a list
    of entries, whether or not that store can be read or written. It
    returns; it sets the status to GAME_OVER and the loading flag, raises the
    high score to the larger of the old high score and the score, and shows
    the list the leaderboard service returns on that store: the top ten of
    the stored list with the player's entry added. Snake, food, score,
    directions and analysis result stay. Afterwards the high score shown in
    the HUD is at least the score. A store holding JSON of another shape is
    outside this statement. *)
Theorem X3_handleGameOver :
  forall eng now g w,
    let lb := top_ten (stored_leaderboard (localStorage w)
                       ++ [new_entry now (playerName g) (score g)]) in
    exists w',
      handleGameOver now (mkMachine g w) = Ok tt (mkMachine (game_over g lb) w') /\
      (exists W',
         Untyped.saveScoreToLeaderboard eng now (playerName g) (score g)
                                        (untyped_world w)
         = Ok (map entry_json lb) W') /\
      localStorage w' = (if setItem_throws (localStorage w) then localStorage w
                         else with_leaderboard lb (localStorage w)) /\
      alerts w' = alerts w /\ draws w' = draws w /\
      highScore g <= highScore (game_over g lb) /\
      score g <= displayedHighScore (game_over g lb).
Proof.
  intros eng now g w lb.
  destruct (handleGameOver_saves now g w) as [w' [Hrun [Hst [Hal Hdr]]]].
  exists w'. repeat split; try assumption.
  - rewrite saveScoreToLeaderboard_typed.
    destruct (saveScoreToLeaderboard_returns now (playerName g) (score g) w)
      as [c Hsave].
    rewrite Hsave. eexists. reflexivity.
  - unfold game_over. cbn [highScore]. lia.
  - unfold displayedHighScore, game_over, Math_max. cbn [highScore leaderboard].
    apply Z.le_trans with (Z.max (highScore g) (score g)); [lia | apply Z.le_max_l].
Qed.

(* ================================================================== *)
(** ** Ranking on the leaderboard *)
(* ================================================================== *)

Section Ranking.

Import Leaderboard.

Local Notation "'by_score'" :=
  (fun a b : LeaderboardEntry => score b - score a) (only parsing).

Lemma Array_sort_length {A} (cmp : A -> A -> Z) (l : list A) :
  List.length (Array_sort cmp l) = List.length l.
Proof. apply Permutation_length, Array_sort_perm. Qed.

(** A list already in order is left as it is. *)
Lemma Array_sort_sorted_id (l : list LeaderboardEntry) :
  sorted_desc l -> Array_sort by_score l = l.
Proof.
  unfold sorted_desc. induction l as [|a l IH]; intros Hs; [reflexivity |].
  inversion Hs as [|a' l' Hl Ha]; subst.
  cbn [Array_sort]. rewrite (IH Hl).
  destruct l as [|b l]; [reflexivity |].
  cbn [sort_insert]. inversion Ha as [|b' l' Hb _]; subst.
  destruct (Z.leb_spec (score b - score a) 0); [reflexivity | lia].
Qed.

Lemma sorted_desc_snoc (l : list LeaderboardEntry) (e : LeaderboardEntry) :
  sorted_desc l ->
  (forall a, In a l -> score e <= score a) ->
  sorted_desc (l ++ [e]).
Proof.
  unfold sorted_desc. induction l as [|a l IH]; intros Hs Hall; simpl.
  - constructor; constructor.
  - inversion Hs as [|a' l' Hl Ha]; subst. constructor.
    + apply IH; [exact Hl |]. intros b Hb. apply Hall. right. exact Hb.
    + apply Forall_app. split; [exact Ha |].
      constructor; [| constructor].
      specialize (Hall a (or_introl eq_refl)). lia.
Qed.

(** An entry that outscores all others comes out first. *)
Lemma Array_sort_snoc_top (l : list LeaderboardEntry) (e : LeaderboardEntry) :
  (forall a, In a l -> score a < score e) ->
  Array_sort by_score (l ++ [e]) = e :: Array_sort by_score l.
Proof.
  induction l as [|a l IH]; intros Hall; [reflexivity |].
  change (Array_sort by_score ((a :: l) ++ [e]))
    with (sort_insert by_score a (Array_sort by_score (l ++ [e]))).
  rewrite IH by (intros b Hb; apply Hall; right; exact Hb).
  change (Array_sort by_score (a :: l))
    with (sort_insert by_score a (Array_sort by_score l)).
  cbn [sort_insert]. specialize (Hall a (or_introl eq_refl)).
  destruct (Z.leb_spec (score e - score a) 0); [lia | reflexivity].
Qed.

Lemma sorted_firstn_skipn (n : nat) (l : list LeaderboardEntry) :
  sorted_desc l ->
  forall a b, In a (firstn n l) -> In b (skipn n l) -> score a >= score b.
Proof.
  unfold sorted_desc. revert n.
  induction l as [|c l IH]; intros [|n] Hs a b Ha Hb; simpl in *; try contradiction.
  inversion Hs as [|c' l' Hl Hc]; subst.
  destruct Ha as [<- | Ha].
  - rewrite Forall_forall in Hc. apply Hc.
    rewrite <- (firstn_skipn n l). apply in_or_app. right. exact Hb.
  - eapply IH; eassumption.
Qed.

End Ranking.

(** X4. What is saved is what is loaded: on a store that neither throws on
    reading nor on writing, a load that follows a save returns exactly the
    list the save returned, logs nothing and leaves the store as the save
    wrote it. *)
Theorem X4_save_then_load :
  forall now name sc w,
    getItem_throws (localStorage w) = false ->
    setItem_throws (localStorage w) = false ->
    exists updated w',
      storageService.saveScoreToLeaderboard now name sc w = Ok updated w' /\
      storageService.getLeaderboard w' = Ok updated w' /\
      stored_leaderboard (localStorage w') = updated.
Proof.
  intros now name sc w Hg Hs.
  destruct (saveScoreToLeaderboard_returns now name sc w) as [c Hsave].
  rewrite Hs in Hsave. eexists. eexists. split; [exact Hsave |].
  destruct w as [[cell pn gt st] c0 a d]. simpl in Hg, Hs. subst.
  split; reflexivity.
Qed.

Example X4_save_then_load_witness :
  exists updated w',
    storageService.saveScoreToLeaderboard [] (lit "Alex") 120 world0 = Ok updated w' /\
    storageService.getLeaderboard w' = Ok updated w' /\
    stored_leaderboard (localStorage w') = updated.
Proof.
  apply (X4_save_then_load [] (lit "Alex") 120 world0); reflexivity.
Defined.

(** X5. While the store holds fewer than ten entries a save never drops
    anything: the returned list has one entry more than the stored one and
    contains the new entry. *)
Theorem X5_room_on_the_board :
  forall now name sc w updated w',
    (List.length (stored_leaderboard (localStorage w)) < 10)%nat ->
    storageService.saveScoreToLeaderboard now name sc w = Ok updated w' ->
    List.length updated = S (List.length (stored_leaderboard (localStorage w))) /\
    In (new_entry now name sc) updated /\
    Permutation updated (stored_leaderboard (localStorage w) ++ [new_entry now name sc]).
Proof.
  intros now name sc w updated w' Hlen Hsave.
  destruct (saveScoreToLeaderboard_returns now name sc w) as [c Hc].
  rewrite Hc in Hsave. injection Hsave as <- _.
  fold (new_entry now name sc). unfold top_ten.
  set (l := stored_leaderboard (localStorage w) ++ [new_entry now name sc]).
  assert (Hl : List.length l = S (List.length (stored_leaderboard (localStorage w))))
    by (unfold l; rewrite length_app; simpl; lia).
  rewrite firstn_all2 by (rewrite Array_sort_length; lia).
  split; [rewrite Array_sort_length; exact Hl |].
  split; [| apply Array_sort_perm].
  apply (Permutation_in _ (Permutation_sym (Array_sort_perm _ l))).
  unfold l. apply in_or_app. right. left. reflexivity.
Qed.

Example X5_room_on_the_board_witness :
  List.length [Leaderboard.mkEntry (lit "Alex") 120 []] = 1%nat /\
  In (new_entry [] (lit "Alex") 120) [Leaderboard.mkEntry (lit "Alex") 120 []] /\
  Permutation [Leaderboard.mkEntry (lit "Alex") 120 []]
              ([] ++ [new_entry [] (lit "Alex") 120]).
Proof.
  apply (X5_room_on_the_board [] (lit "Alex") 120 world0
           [Leaderboard.mkEntry (lit "Alex") 120 []]
           (mkWorld (mkStorage (Some (JsonOf [Leaderboard.mkEntry (lit "Alex") 120 []]))
                               None false false) [] [] 0)).
  - simpl. lia.
  - reflexivity.
Defined.

(** X6. A full board is not displaced by a score that does not beat it:
    when the store holds ten entries in non-increasing order and the new
    score is not above any of them, the save returns the stored list
    unchanged; the new entry is dropped, also when it ties with the tenth. *)
Theorem X6_full_board_keeps_out_low_scores :
  forall now name sc w updated w',
    sorted_desc (stored_leaderboard (localStorage w)) ->
    List.length (stored_leaderboard (localStorage w)) = 10%nat ->
    (forall a, In a (stored_leaderboard (localStorage w)) -> sc <= Leaderboard.score a) ->
    storageService.saveScoreToLeaderboard now name sc w = Ok updated w' ->
    updated = stored_leaderboard (localStorage w).
Proof.
  intros now name sc w updated w' Hsorted Hlen Hall Hsave.
  destruct (saveScoreToLeaderboard_returns now name sc w) as [c Hc].
  rewrite Hc in Hsave. injection Hsave as <- _.
  fold (new_entry now name sc). unfold top_ten.
  rewrite Array_sort_sorted_id by (apply sorted_desc_snoc; assumption).
  rewrite <- Hlen. rewrite firstn_app, firstn_all, Nat.sub_diag.
  simpl. apply app_nil_r.
Qed.

(** X7. A score above every stored one takes the first place: the
    returned list starts with the new entry. *)
Theorem X7_new_top_score_ranks_first :
  forall now name sc w updated w',
    (forall a, In a (stored_leaderboard (localStorage w)) -> Leaderboard.score a < sc) ->
    storageService.saveScoreToLeaderboard now name sc w = Ok updated w' ->
    exists others, updated = new_entry now name sc :: others.
Proof.
  intros now name sc w updated w' Hall Hsave.
  destruct (saveScoreToLeaderboard_returns now name sc w) as [c Hc].
  rewrite Hc in Hsave. injection Hsave as <- _.
  fold (new_entry now name sc). unfold top_ten.
  rewrite Array_sort_snoc_top by exact Hall.
  eexists. reflexivity.
Qed.

(** X8. The cut to ten drops only the lowest: the returned list together
    with the dropped entries is the stored list plus the new entry, and no
    dropped entry has a higher score than a returned one. *)
Theorem X8_truncation_drops_the_lowest :
  forall now name sc w updated w',
    storageService.saveScoreToLeaderboard now name sc w = Ok updated w' ->
    exists dropped,
      Permutation (updated ++ dropped)
                  (stored_leaderboard (localStorage w) ++ [new_entry now name sc]) /\
      forall a b, In a updated -> In b dropped ->
                  Leaderboard.score a >= Leaderboard.score b.
Proof.
  intros now name sc w updated w' Hsave.
  destruct (saveScoreToLeaderboard_returns now name sc w) as [c Hc].
  rewrite Hc in Hsave. injection Hsave as <- _.
  fold (new_entry now name sc). unfold top_ten.
  set (l := stored_leaderboard (localStorage w) ++ [new_entry now name sc]).
  exists (skipn 10 (Array_sort (fun a b => Leaderboard.score b - Leaderboard.score a) l)).
  split.
  - rewrite firstn_skipn. apply Array_sort_perm.
  - apply sorted_firstn_skipn, Array_sort_sorted.
Qed.

Example X6_full_board_keeps_out_low_scores_witness :
  full_board = stored_leaderboard (localStorage world_full).
Proof.
  apply (X6_full_board_keeps_out_low_scores [] (lit "Zed") 10 world_full
           full_board (written full_board world_full)).
  - unfold sorted_desc. simpl.
    repeat (constructor; [| repeat (constructor; try (simpl; lia))]). constructor.
  - reflexivity.
  - simpl. intros a H.
    repeat (destruct H as [<- | H]; [simpl; lia |]). contradiction.
  - reflexivity.
Defined.

Example X7_new_top_score_ranks_first_witness :
  exists others,
    top_ten (full_board ++ [new_entry [] (lit "Zed") 500])
    = new_entry [] (lit "Zed") 500 :: others.
Proof.
  apply (X7_new_top_score_ranks_first [] (lit "Zed") 500 world_full
           (top_ten (full_board ++ [new_entry [] (lit "Zed") 500]))
           (written (top_ten (full_board ++ [new_entry [] (lit "Zed") 500])) world_full)).
  - simpl. intros a H.
    repeat (destruct H as [<- | H]; [simpl; lia |]). contradiction.
  - reflexivity.
Defined.

Example X8_truncation_drops_the_lowest_witness :
  exists dropped,
    Permutation (top_ten (full_board ++ [new_entry [] (lit "Zed") 55]) ++ dropped)
                (stored_leaderboard (localStorage world_full)
                 ++ [new_entry [] (lit "Zed") 55]) /\
    forall a b,
      In a (top_ten (full_board ++ [new_entry [] (lit "Zed") 55])) ->
      In b dropped -> Leaderboard.score a >= Leaderboard.score b.
Proof.
  apply (X8_truncation_drops_the_lowest [] (lit "Zed") 55 world_full
           (top_ten (full_board ++ [new_entry [] (lit "Zed") 55]))
           (written (top_ten (full_board ++ [new_entry [] (lit "Zed") 55])) world_full)).
  reflexivity.
Defined.

(* ------------------------------------------------------------------ *)
(** *** Names on the leaderboard *)

Lemma trimStart_head (s : jsstring) (c : N) (r : jsstring) :
  trimStart s = c :: r -> isWhiteSpace c = false.
Proof.
  induction s as [|d s IH]; simpl; [discriminate |].
  destruct (isWhiteSpace d) eqn:Hd; [exact IH |].
  intros H. injection H as <- _. exact Hd.
Qed.

Lemma trimStart_suffix (s : jsstring) :
  exists ws, s = ws ++ trimStart s.
Proof.
  induction s as [|d s [ws IH]]; simpl; [exists []; reflexivity |].
  destruct (isWhiteSpace d).
  - exists (d :: ws). simpl. f_equal. exact IH.
  - exists []. reflexivity.
Qed.

Lemma trim_last (s : jsstring) (init : jsstring) (c : N) :
  trim s = init ++ [c] -> isWhiteSpace c = false.
Proof.
  unfold trim, trimEnd. intros H.
  apply (f_equal (@rev N)) in H. rewrite rev_involutive, rev_app_distr in H.
  simpl in H. eapply trimStart_head, H.
Qed.

Lemma trim_head (s : jsstring) (c : N) (r : jsstring) :
  trim s = c :: r -> isWhiteSpace c = false.
Proof.
  unfold trim, trimEnd. intros H.
  destruct (trimStart_suffix (rev (trimStart s))) as [ws Hws].
  apply (f_equal (@rev N)) in Hws.
  rewrite rev_involutive, rev_app_distr, H in Hws.
  simpl in Hws. eapply trimStart_head, Hws.
Qed.

(** X9. The name a save puts on the leaderboard is never empty and never
    starts or ends with white space: it is the input without its surrounding
    white space, or 'Anonymous Agent' when nothing else is left. *)
Theorem X9_saved_name_is_clean :
  forall now name sc,
    let n := Leaderboard.name (new_entry now name sc) in
    n <> [] /\
    (forall c r, n = c :: r -> isWhiteSpace c = false) /\
    (forall init c, n = init ++ [c] -> isWhiteSpace c = false) /\
    (blank name -> n = lit "Anonymous Agent") /\
    (~ blank name -> n = trim name).
Proof.
  intros now name sc. unfold new_entry. cbn [Leaderboard.name].
  rewrite or_else_trim.
  destruct (trim name) as [|c0 t] eqn:Ht.
  - repeat split.
    + discriminate.
    + intros c r H. injection H as <- _. reflexivity.
    + intros init c H.
      change (lit "Anonymous Agent") with (lit "Anonymous Agen" ++ [116%N]) in H.
      apply app_inj_tail in H. destruct H as [_ <-]. reflexivity.
    + intros Hb. exfalso. apply Hb, trim_nil, Ht.
  - repeat split.
    + discriminate.
    + intros c r H. rewrite <- Ht in H. eapply trim_head, H.
    + intros init c H. rewrite <- Ht in H. eapply trim_last, H.
    + intros Hb. apply trim_nil in Hb. congruence.
Qed.

Example X9_saved_name_is_clean_witness :
  Leaderboard.name (new_entry [] (lit "  Alex ") 10) = trim (lit "  Alex ") /\
  Leaderboard.name (new_entry [] (lit "   ") 10) = lit "Anonymous Agent".
Proof.
  split.
  - apply (X9_saved_name_is_clean [] (lit "  Alex ") 10).
    intros Hb. apply truthy_trim in Hb. discriminate Hb.
  - apply (X9_saved_name_is_clean [] (lit "   ") 10).
    apply truthy_trim. reflexivity.
Defined.

(* ================================================================== *)
(** ** Mounting the component *)
(* ================================================================== *)

Lemma onMount_readable g w :
  getItem_throws (localStorage w) = false ->
  exists c,
    onMount (mkMachine g w) =
    Ok tt (mkMachine
             (mounted g (stored_leaderboard (localStorage w))
                      (wpp_snake_player_name (localStorage w)))
             (mkWorld (localStorage w) c (alerts w) (draws w))).
Proof.
  destruct g as [sn fd dir st sc hs pn lb gd il dr nd].
  destruct w as [[cell sv gt wt] c a d].
  cbn [localStorage getItem_throws wpp_snake_player_name]. intros ->.
  unfold mounted, stored_leaderboard.
  destruct cell as [[[|ch raw] | l] |]; destruct sv as [[|c1 n] |];
    eexists; reflexivity.
Qed.

(** X10. The mount effect, on a store whose leaderboard text is absent,
    rejected by [JSON.parse] or the serialisation of a list of entries.
    When the store can be read, the effect returns: it shows the stored
    leaderboard (none when the key is absent or its text is not JSON), which
    is what the leaderboard service returns on that store, restores the
    saved player name when one is stored and not empty, and touches nothing
    else of the state nor the store. When reading the store throws, the
    effect throws: the service logs its failed read, and the read of the
    player name is not guarded. *)
Theorem X10_onMount :
  forall g w,
    (getItem_throws (localStorage w) = false ->
     exists c,
       onMount (mkMachine g w) =
       Ok tt (mkMachine
                (mounted g (stored_leaderboard (localStorage w))
                         (wpp_snake_player_name (localStorage w)))
                (mkWorld (localStorage w) c (alerts w) (draws w))) /\
       Untyped.getLeaderboard (untyped_world w) =
       Ok (Untyped.JArray (map entry_json (stored_leaderboard (localStorage w))))
          (untyped_world (mkWorld (localStorage w) c (alerts w) (draws w)))) /\
    (getItem_throws (localStorage w) = true ->
     exists m',
       onMount (mkMachine g w) = Raise DOMException m' /\
       console (world m') =
         (lit "Failed to load leaderboard", DOMException) :: console w /\
       localStorage (world m') = localStorage w).
Proof.
  intros g w. split.
  - destruct g as [sn fd dir st sc hs pn lb gd il dr nd].
    destruct w as [[cell sv gt wt] c a d].
    cbn [localStorage getItem_throws wpp_snake_player_name alerts draws]. intros ->.
    unfold mounted, stored_leaderboard.
    destruct cell as [[[|ch raw] | l] |]; destruct sv as [[|c1 n] |];
      eexists; split; reflexivity.
  - destruct g as [sn fd dir st sc hs pn lb gd il dr nd].
    destruct w as [[cell sv gt wt] c a d].
    cbn [localStorage getItem_throws wpp_snake_player_name]. intros ->.
    eexists. split; [reflexivity |]. split; reflexivity.
Qed.

Example X10_onMount_witness :
  (exists c,
     onMount (mkMachine initialState
                (mkWorld (mkStorage (Some (JsonOf full_board)) (Some (lit "Alex"))
                                    false false) [] [] 0)) =
     Ok tt (mkMachine
              (mkApp INITIAL_SNAKE (mkPosition 7 4) INITIAL_DIRECTION IDLE 0 0
                     (lit "Alex") full_board None false
                     INITIAL_DIRECTION INITIAL_DIRECTION)
              (mkWorld (mkStorage (Some (JsonOf full_board)) (Some (lit "Alex"))
                                  false false) c [] 0)) /\
     Untyped.getLeaderboard
       (untyped_world
          (mkWorld (mkStorage (Some (JsonOf full_board)) (Some (lit "Alex"))
                              false false) [] [] 0)) =
     Ok (Untyped.JArray (map entry_json full_board))
        (untyped_world
           (mkWorld (mkStorage (Some (JsonOf full_board)) (Some (lit "Alex"))
                               false false) c [] 0))) /\
  (exists m',
     onMount (mkMachine initialState
                (mkWorld (mkStorage None None true false) [] [] 0)) =
     Raise DOMException m' /\
     console (world m') = [(lit "Failed to load leaderboard", DOMException)] /\
     localStorage (world m') = mkStorage None None true false).
Proof.
  split.
  - apply (X10_onMount initialState
             (mkWorld (mkStorage (Some (JsonOf full_board)) (Some (lit "Alex"))
                                 false false) [] [] 0)).
    reflexivity.
  - apply (X10_onMount initialState
             (mkWorld (mkStorage None None true false) [] [] 0)).
    reflexivity.
Defined.

Lemma blank_nil : blank [].
Proof. constructor. Qed.

(** X11. The name a game was started with comes back on the next mount:
    after a start command that went through with a name that is not blank,
    the mount effect of a fresh component on the same store, if the store can
    be read, sets the player name to that name, exactly as it was typed. *)
Theorem X11_player_name_round_trip :
  forall fuel rnd g w m',
    ~ blank (playerName g) ->
    getItem_throws (localStorage w) = false ->
    startGame fuel rnd (mkMachine g w) = Ok tt m' ->
    exists m'',
      onMount (mkMachine initialState (world m')) = Ok tt m'' /\
      playerName (app m'') = playerName g.
Proof.
  intros fuel rnd g w m' Hb Hg Hstart.
  assert (Ht : truthy (trim (playerName g)) = true).
  { destruct (truthy (trim (playerName g))) eqn:E; [reflexivity |].
    exfalso. apply Hb, truthy_trim, E. }
  assert (Hne : playerName g <> []) by (intros E; apply Hb; rewrite E; apply blank_nil).
  destruct g as [sn fd dir st sc hs pn lb gd il dr nd]. simpl in Hb, Ht, Hne.
  destruct w as [[cell sv gt wt] c a d]. simpl in Hg. subst gt.
  revert Hstart.
  cbv -[trim truthy lit jsstring getRandomPosition INITIAL_SNAKE INITIAL_DIRECTION
        onMount initialState].
  rewrite Ht. destruct wt; [discriminate |].
  destruct (getRandomPosition _ _ _ _) as [p w1 | e w1 |] eqn:Hp; try discriminate.
  intros H. injection H as <-. cbn [world playerName].
  apply getRandomPosition_Ok_inv in Hp. destruct Hp as [k [_ [_ [-> _]]]].
  destruct (onMount_readable initialState
              (drawn (2 * S k)
                 (mkWorld (mkStorage cell (Some pn) false false) c a d)) eq_refl)
    as [c' Hm].
  rewrite Hm.
  eexists. split; [reflexivity |].
  cbn. destruct pn; [contradiction | reflexivity].
Qed.

Example X11_player_name_round_trip_witness :
  exists m'',
    onMount (mkMachine initialState
               (mkWorld (mkStorage None (Some (lit " Alex")) false false) [] [] 2))
    = Ok tt m'' /\
    playerName (app m'') = lit " Alex".
Proof.
  apply (X11_player_name_round_trip 1%nat (fun _ => 0%Q)
           (mkApp INITIAL_SNAKE (mkPosition 7 4) INITIAL_DIRECTION IDLE 0 0
                  (lit " Alex") [] None false INITIAL_DIRECTION INITIAL_DIRECTION)
           world0
           (mkMachine
              (mkApp INITIAL_SNAKE (mkPosition 0 0) INITIAL_DIRECTION PLAYING 0 0
                     (lit " Alex") [] None false INITIAL_DIRECTION INITIAL_DIRECTION)
              (mkWorld (mkStorage None (Some (lit " Alex")) false false) [] [] 2))).
  - intros Hb. apply truthy_trim in Hb. discriminate Hb.
  - reflexivity.
  - reflexivity.
Defined.

(* ================================================================== *)
(** ** The shape of the game in every reachable state *)
(* ================================================================== *)

Lemma removelast_In {A} (l : list A) (a : A) : In a (removelast l) -> In a l.
Proof.
  induction l as [|b [|c l] IH]; simpl; tauto.
Qed.

Lemma removelast_NoDup {A} (l : list A) : NoDup l -> NoDup (removelast l).
Proof.
  induction l as [|b [|c l] IH]; intros H; [constructor | constructor |].
  inversion H as [|b' l' Hb Hl]; subst.
  change (removelast (b :: c :: l)) with (b :: removelast (c :: l)).
  constructor; [| apply IH, Hl].
  intros Hin. apply Hb, removelast_In, Hin.
Qed.

Lemma removelast_Forall {A} (P : A -> Prop) (l : list A) :
  Forall P l -> Forall P (removelast l).
Proof.
  rewrite !Forall_forall. intros H a Ha. apply H, removelast_In, Ha.
Qed.

Lemma removelast_chain (l : list Position) : chain l -> chain (removelast l).
Proof.
  induction l as [|p [|q [|r l]] IH]; intros H; try exact I.
  change (removelast (p :: q :: r :: l)) with (p :: q :: removelast (r :: l)).
  destruct H as [Hpq Hrest]. split; [exact Hpq |].
  exact (IH Hrest).
Qed.

Lemma neighbours_advance (p d : Position) :
  unit_direction d -> neighbours (advance p d) p.
Proof.
  unfold neighbours, advance.
  intros [-> | [-> | [-> | ->]]]; simpl; lia.
Qed.

Lemma advance_minus (p d : Position) :
  d = mkPosition (x (advance p d) - x p) (y (advance p d) - y p).
Proof. destruct d as [dx dy]. unfold advance. simpl. f_equal; lia. Qed.

(** A key press changes at most the status (a pause key) or the buffer (a
    direction key), and the buffer it leaves is a unit vector that does not
    reverse the active direction. *)
Lemma handleKeyDown_frame key g w :
  steerable g ->
  exists st' d,
    handleKeyDown key (mkMachine g w) =
    Ok tt (mkMachine
             (mkApp (snake g) (food g) (direction g) st' (score g) (highScore g)
                    (playerName g) (leaderboard g) (geminiData g)
                    (isLoadingGemini g) (directionRef g) d) w) /\
    unit_direction d /\ d <> negate (directionRef g) /\
    (status g = PLAYING \/ status g = PAUSED <-> st' = PLAYING \/ st' = PAUSED).
Proof.
  destruct g as [sn fd dir st sc hs pn lb gd il dr nd].
  unfold steerable, unit_direction, negate. simpl.
  intros [Hd [Hn Hne]].
  unfold handleKeyDown, togglePause, setStatus, set_nextDirectionRef,
    update, get, modify, reads, bind, ret.
  destruct (key_is key ["p"; "P"; "Escape"]%string).
  { destruct st; eexists; eexists; (split; [reflexivity |]);
      (split; [exact Hn |]); (split; [exact Hne |]);
      split; intros [H | H]; try discriminate H; auto. }
  cbn -[key_is Z.eqb]. destruct st; cbn -[key_is Z.eqb];
    try (eexists; eexists; (split; [reflexivity |]);
         (split; [exact Hn |]); (split; [exact Hne |]); tauto).
  destruct (key_is key ["ArrowUp"; "w"; "W"]%string);
    [| destruct (key_is key ["ArrowDown"; "s"; "S"]%string);
       [| destruct (key_is key ["ArrowLeft"; "a"; "A"]%string);
          [| destruct (key_is key ["ArrowRight"; "d"; "D"]%string)]]];
    destruct Hd as [-> | [-> | [-> | ->]]]; cbn;
    (eexists; eexists; (split; [reflexivity |])); simpl;
    (split; [auto 8 |]); (split; [first [exact Hne | discriminate] | tauto]).
Qed.

Lemma handleGameOver_resume_returns sc len reply g w :
  exists a w',
    handleGameOver_resume sc len reply (mkMachine g w) =
    Ok tt (mkMachine (with_analysis g a) w') /\
    (a = geminiService.fallback \/
     reply = inl (geminiService.mkResponse (Some (JsonOf a)))) /\
    localStorage w' = localStorage w.
Proof.
  destruct g as [sn fd dir st sc0 hs pn lb gd il dr nd].
  destruct w as [st0 c a0 d].
  destruct reply as [[[[[|ch raw] | v] |]] | e];
    eexists; eexists; (split; [reflexivity |]); split; auto.
Qed.

Lemma game_invariant_initial_snake p st hs pn lb gd il :
  ~ In p INITIAL_SNAKE ->
  game_invariant (mkApp INITIAL_SNAKE p INITIAL_DIRECTION st 0 hs pn lb gd il
                        INITIAL_DIRECTION INITIAL_DIRECTION).
Proof.
  intros Hp. unfold game_invariant, steerable, unit_direction, negate, aligned,
    INITIAL_SNAKE, INITIAL_DIRECTION. simpl.
  repeat split; auto 8; try discriminate; try lia.
  - repeat constructor; simpl; intuition discriminate.
  - repeat constructor; unfold onBoard, BOARD_SIZE; simpl; lia.
Qed.

(** The state a collision leaves: the game as it was, over, with the
    buffered direction made active. *)
Lemma game_invariant_over g hs lb gd il :
  game_invariant g ->
  game_invariant (mkApp (snake g) (food g) (nextDirectionRef g) GAME_OVER (score g)
                        hs (playerName g) lb gd il
                        (nextDirectionRef g) (nextDirectionRef g)).
Proof.
  intros [[_ [Hn _]] [Hlen [Hnd [Hon [Hch [Hsc [Hfd _]]]]]]].
  unfold game_invariant, steerable, aligned. simpl.
  repeat split; try assumption.
  - apply unit_not_reverse, Hn.
  - intros [H | H]; discriminate H.
Qed.

Lemma moveSnake_keeps_invariant fuel rnd now g w :
  game_invariant g ->
  lands_in game_invariant (moveSnake fuel rnd now (mkMachine g w)).
Proof.
  intros Hinv.
  destruct (GameStatus_eqb (status g) PLAYING) eqn:Hst.
  2:{ rewrite moveSnake_not_playing; [exact Hinv |].
      intros E. rewrite E in Hst. discriminate Hst. }
  assert (Hp : status g = PLAYING)
    by (destruct (status g); try discriminate; reflexivity).
  pose proof Hinv as [[Hd [Hn Hrev]] [Hlen [Hnd [Hon [Hch [Hsc [Hfd Hal]]]]]]].
  destruct (snake g) as [|head [|neck rest]] eqn:Hsn; simpl in Hlen; try lia.
  set (newHead := advance head (nextDirectionRef g)).
  destruct (off_board newHead) eqn:Hoff.
  { rewrite (moveSnake_wall fuel rnd now g w head (neck :: rest) Hp Hsn Hoff).
    destruct (handleGameOver_returns now (turned g) w) as [lb [w' [-> _]]].
    simpl. apply game_invariant_over, Hinv. }
  destruct (Array_some (same_cell newHead) (comparison_body g newHead)) eqn:Hc.
  { rewrite (moveSnake_self fuel rnd now g w head (neck :: rest) Hp Hsn Hoff Hc).
    destruct (handleGameOver_returns now (turned g) w) as [lb [w' [-> _]]].
    simpl. apply game_invariant_over, Hinv. }
  apply off_board_false in Hoff. unfold comparison_body in Hc.
  assert (Hal' : nextDirectionRef g =
                 mkPosition (x newHead - x head) (y newHead - y head))
    by apply advance_minus.
  destruct (Position_eqb newHead (food g)) eqn:He.
  - destruct (getRandomPosition fuel rnd (newHead :: snake g) w)
      as [p w' | e w' |] eqn:Hp'.
    + assert (Hoff' := proj2 (off_board_false newHead) Hoff).
      rewrite (moveSnake_eat fuel rnd now g w head (neck :: rest) Hp Hsn p w'
                 Hoff' He Hc Hp').
      apply getRandomPosition_Ok_inv in Hp'.
      destruct Hp' as [k [_ [_ [_ [Hpfree _]]]]].
      apply Array_some_not_In in Hc.
      unfold lands_in, game_invariant, steerable, aligned, grown.
      cbn [app snake food direction status score highScore playerName leaderboard
           geminiData isLoadingGemini directionRef nextDirectionRef List.length chain].
      rewrite Hsn in *.
      cbn [app snake food direction status score highScore playerName leaderboard
           geminiData isLoadingGemini directionRef nextDirectionRef List.length chain] in *.
      repeat split; try assumption.
      * apply unit_not_reverse, Hn.
      * lia.
      * constructor; assumption.
      * constructor; assumption.
      * apply neighbours_advance, Hn.
      * apply Hch.
      * apply Hch.
      * lia.
      * intros _. exact Hal'.
    + exfalso. eapply getRandomPosition_no_throw, Hp'.
    + assert (Hoff' := proj2 (off_board_false newHead) Hoff).
      rewrite (moveSnake_eat_out_of_fuel fuel rnd now g w head (neck :: rest)
                 Hp Hsn Hoff' He Hc Hp').
      exact I.
  - assert (Hoff' := proj2 (off_board_false newHead) Hoff).
    rewrite (moveSnake_move fuel rnd now g w head (neck :: rest) Hp Hsn Hoff' He Hc).
    apply Array_some_not_In in Hc. apply Position_eqb_neq in He.
    unfold lands_in, game_invariant, steerable, aligned, moved.
    cbn [app snake food direction status score highScore playerName leaderboard
         geminiData isLoadingGemini directionRef nextDirectionRef List.length chain].
    rewrite Hsn in *.
    change (removelast (head :: neck :: rest))
      with (head :: removelast (neck :: rest)) in *.
    assert (Hl : S (List.length (removelast (neck :: rest))) = List.length (neck :: rest))
      by (apply removelast_length; discriminate).
    cbn [app snake food direction status score highScore playerName leaderboard
         geminiData isLoadingGemini directionRef nextDirectionRef List.length chain] in *.
    repeat split; try assumption.
    + apply unit_not_reverse, Hn.
    + lia.
    + constructor; [exact Hc |].
      apply (removelast_NoDup (head :: neck :: rest)), Hnd.
    + constructor; [exact Hoff |].
      apply (removelast_Forall onBoard (head :: neck :: rest)), Hon.
    + apply neighbours_advance, Hn.
    + apply (removelast_chain (head :: neck :: rest)), Hch.
    + lia.
    + intros [Hf | Hf]; [apply He; exact Hf |].
      apply Hfd. apply (removelast_In (head :: neck :: rest)). exact Hf.
    + intros _. exact Hal'.
Qed.

Lemma handleKeyDown_keeps_invariant key g w :
  game_invariant g ->
  lands_in game_invariant (handleKeyDown key (mkMachine g w)).
Proof.
  intros [Hs [Hlen [Hnd [Hon [Hch [Hsc [Hfd Hal]]]]]]].
  destruct (handleKeyDown_frame key g w Hs) as [st' [d [-> [Hd [Hrev Hst]]]]].
  destruct Hs as [Hdr _].
  unfold lands_in, game_invariant, steerable, aligned in *.
  cbn [app snake food status score directionRef nextDirectionRef] in *.
  repeat split; try assumption.
  intros H. apply Hal, Hst, H.
Qed.

Lemma startGame_keeps_invariant fuel rnd g w :
  game_invariant g ->
  lands_in game_invariant (startGame fuel rnd (mkMachine g w)).
Proof.
  intros Hinv.
  destruct g as [sn fd dir st sc hs pn lb gd il dr nd].
  destruct w as [[cell sv gt wt] c a d].
  cbv -[trim truthy lit jsstring getRandomPosition INITIAL_SNAKE INITIAL_DIRECTION
        game_invariant].
  destruct (truthy (trim pn)); [| exact Hinv].
  destruct wt; [exact Hinv |].
  destruct (getRandomPosition _ _ _ _) as [p w' | e w' |] eqn:Hp.
  - apply getRandomPosition_Ok_inv in Hp. destruct Hp as [k [_ [_ [_ [Hfree _]]]]].
    apply game_invariant_initial_snake, Hfree.
  - exfalso. eapply getRandomPosition_no_throw, Hp.
  - exact I.
Qed.

Lemma togglePause_keeps_invariant g w :
  game_invariant g ->
  lands_in game_invariant (togglePause (mkMachine g w)).
Proof.
  intros Hinv. destruct g as [sn fd dir st sc hs pn lb gd il dr nd].
  destruct st; try exact Hinv;
    destruct Hinv as [Hs [Hlen [Hnd [Hon [Hch [Hsc [Hfd Hal]]]]]]];
    unfold lands_in, game_invariant, aligned in *; simpl in *;
    repeat split; try assumption; try apply Hs; intros _; apply Hal; auto.
Qed.

Lemma handleGameOver_resume_keeps_invariant sc len reply g w :
  game_invariant g ->
  lands_in game_invariant (handleGameOver_resume sc len reply (mkMachine g w)).
Proof.
  intros Hinv.
  destruct (handleGameOver_resume_returns sc len reply g w) as [a [w' [-> _]]].
  destruct g. exact Hinv.
Qed.

Lemma reachable_invariant (m : Machine) : reachable m -> game_invariant (app m).
Proof.
  assert (Hstep : forall e g w,
            game_invariant g -> lands_in game_invariant (handler e (mkMachine g w))).
  { intros [key | fuel rnd now | fuel rnd | | sc len reply] g w Hinv.
    - exact (handleKeyDown_keeps_invariant key g w Hinv).
    - exact (moveSnake_keeps_invariant fuel rnd now g w Hinv).
    - exact (startGame_keeps_invariant fuel rnd g w Hinv).
    - exact (togglePause_keeps_invariant g w Hinv).
    - exact (handleGameOver_resume_keeps_invariant sc len reply g w Hinv). }
  induction 1 as [w | m name w Hm IH | m e m' Hm IH He | m e x m' Hm IH He].
  - apply game_invariant_initial_snake. simpl. intuition discriminate.
  - exact IH.
  - destruct m as [g w]. specialize (Hstep e g w IH). rewrite He in Hstep. exact Hstep.
  - destruct m as [g w]. specialize (Hstep e g w IH). rewrite He in Hstep. exact Hstep.
Qed.

Lemma reachable_started :
  reachable
    (mkMachine
       (mkApp INITIAL_SNAKE (mkPosition 0 0) INITIAL_DIRECTION PLAYING 0 0
              (lit "Alex") [] None false INITIAL_DIRECTION INITIAL_DIRECTION)
       (mkWorld (mkStorage None (Some (lit "Alex")) false false) [] [] 2)).
Proof.
  apply (reachable_ok
           (mkMachine
              (mkApp INITIAL_SNAKE (mkPosition 7 4) INITIAL_DIRECTION IDLE 0 0
                     (lit "Alex") [] None false INITIAL_DIRECTION INITIAL_DIRECTION)
              world0)
           (Start 1 (fun _ => 0%Q))).
  - exact (reachable_name (mkMachine initialState world0) (lit "Alex") world0
             (reachable_init world0)).
  - reflexivity.
Defined.

Lemma reachable_length_bounds (m : Machine) :
  reachable m -> (3 <= List.length (snake (app m)) <= 225)%nat.
Proof.
  intros Hm. apply reachable_invariant in Hm.
  destruct Hm as [_ [Hlen [Hnd [Hon _]]]].
  split; [exact Hlen |].
  change 225%nat with (List.length all_cells).
  apply NoDup_incl_length; [exact Hnd |].
  intros p Hp. apply all_cells_complete.
  rewrite Forall_forall in Hon. apply Hon, Hp.
Qed.

(** X12. In every state the program can reach, the snake has at least 3
    and at most 225 segments, all on the board, no two on the same cell, and
    each segment on a cell that shares a side with the cell of the segment
    behind it. *)
Theorem X12_snake_shape :
  forall m,
    reachable m ->
    (3 <= List.length (snake (app m)) <= 225)%nat /\
    Forall onBoard (snake (app m)) /\
    NoDup (snake (app m)) /\
    chain (snake (app m)).
Proof.
  intros m Hm. split; [apply reachable_length_bounds, Hm |].
  apply reachable_invariant in Hm.
  destruct Hm as [_ [_ [Hnd [Hon [Hch _]]]]].
  repeat split; assumption.
Qed.

Example X12_snake_shape_witness :
  (3 <= List.length INITIAL_SNAKE <= 225)%nat /\
  Forall onBoard INITIAL_SNAKE /\ NoDup INITIAL_SNAKE /\ chain INITIAL_SNAKE.
Proof.
  exact (X12_snake_shape _ reachable_started).
Defined.

(** X13. In every reachable state the score is ten times the number of
    segments the snake has gained over its initial three; so it lies between
    0 and 2220. *)
Theorem X13_score_counts_growth :
  forall m,
    reachable m ->
    score (app m) = 10 * (Z.of_nat (List.length (snake (app m))) - 3) /\
    0 <= score (app m) <= 2220.
Proof.
  intros m Hm.
  destruct (reachable_length_bounds m Hm) as [Hlo Hhi].
  apply reachable_invariant in Hm.
  destruct Hm as [_ [_ [_ [_ [_ [Hsc _]]]]]].
  split; [exact Hsc | lia].
Qed.

Example X13_score_counts_growth_witness :
  0 = 10 * (Z.of_nat (List.length INITIAL_SNAKE) - 3) /\ 0 <= 0 <= 2220.
Proof.
  exact (X13_score_counts_growth _ reachable_started).
Defined.

(** X14. In every reachable state the food is on a cell that no segment of
    the snake occupies. *)
Theorem X14_food_off_the_snake :
  forall m, reachable m -> ~ In (food (app m)) (snake (app m)).
Proof.
  intros m Hm. apply reachable_invariant in Hm.
  destruct Hm as [_ [_ [_ [_ [_ [_ [Hfd _]]]]]]]. exact Hfd.
Qed.

Example X14_food_off_the_snake_witness :
  ~ In (mkPosition 0 0) INITIAL_SNAKE.
Proof.
  exact (X14_food_off_the_snake _ reachable_started).
Defined.

(** X15. The snake never turns back onto its neck: in every reachable
    state with status PLAYING the cell the next tick moves the head to, the
    head advanced by the buffered direction, is not the cell of the second
    segment; and while PLAYING or PAUSED the active direction is the step
    the head last took. *)
Theorem X15_no_turning_back :
  forall m head neck rest,
    reachable m ->
    snake (app m) = head :: neck :: rest ->
    (status (app m) = PLAYING \/ status (app m) = PAUSED ->
     directionRef (app m) = mkPosition (x head - x neck) (y head - y neck) /\
     advance head (nextDirectionRef (app m)) <> neck).
Proof.
  intros m head neck rest Hm Hsn Hst. apply reachable_invariant in Hm.
  destruct Hm as [[_ [_ Hrev]] [_ [_ [_ [_ [_ [_ Hal]]]]]]].
  specialize (Hal Hst). rewrite Hsn in Hal. split; [exact Hal |].
  intros E. apply Hrev. rewrite Hal.
  destruct (nextDirectionRef (app m)) as [nx ny].
  unfold advance, negate in *. simpl in *.
  destruct neck as [kx ky]. injection E as Ex Ey. simpl. f_equal; lia.
Qed.

Example X15_no_turning_back_witness :
  INITIAL_DIRECTION = mkPosition (7 - 7) (7 - 8) /\
  advance (mkPosition 7 7) INITIAL_DIRECTION <> mkPosition 7 8.
Proof.
  apply (X15_no_turning_back _ (mkPosition 7 7) (mkPosition 7 8) [mkPosition 7 9]
           reachable_started).
  - reflexivity.
  - left. reflexivity.
Defined.

(* ================================================================== *)
(** ** The tick interval over a game *)
(* ================================================================== *)

Lemma speed_formula (sc : Z) : speed sc = Z.max 50 (150 - (sc / 50) * 5).
Proof.
  unfold speed, Math_max, BASE_SPEED.
  change 50%Q with (inject_Z (Zpos 50)).
  rewrite Math_floor_div. reflexivity.
Qed.

(** X16. For scores that are not negative the tick interval stays between
    50 and 150 ms and never grows when the score grows; it is at its floor of
    50 ms exactly from score 1000 on. In every reachable state the interval
    the game loop asks for is therefore between 50 and 150 ms. *)
Theorem X16_speed_bounds :
  (forall a b, 0 <= a <= b -> 50 <= speed b /\ speed b <= speed a /\ speed a <= 150) /\
  (forall a, 0 <= a -> (speed a = 50 <-> 1000 <= a)) /\
  (forall m, reachable m -> 50 <= speed (score (app m)) <= 150).
Proof.
  assert (H : forall a b, 0 <= a <= b ->
                50 <= speed b /\ speed b <= speed a /\ speed a <= 150).
  { intros a b Hab. rewrite !speed_formula.
    assert (Hd : a / 50 <= b / 50) by (apply Z.div_le_mono; lia).
    assert (Ha : 0 <= a / 50) by (apply Z.div_pos; lia).
    lia. }
  split; [exact H |]. split.
  - intros a Ha. rewrite speed_formula.
    assert (Hq : 20 <= a / 50 <-> 1000 <= a).
    { split; intros Hx.
      - pose proof (Z.mul_div_le a 50 ltac:(lia)). lia.
      - apply Z.div_le_lower_bound; lia. }
    lia.
  - intros m Hm. apply reachable_invariant in Hm.
    destruct Hm as [_ [Hlen [_ [_ [_ [Hsc _]]]]]].
    destruct (H (score (app m)) (score (app m))) as [Hlo [_ Hhi]]; lia.
Qed.

Example X16_speed_bounds_witness :
  50 <= speed 700 /\ speed 700 <= speed 120 /\ speed 120 <= 150.
Proof.
  destruct X16_speed_bounds as [H _]. apply (H 120 700). lia.
Defined.

(* ================================================================== *)
(** ** The arrival of the commentary *)
(* ================================================================== *)

(** X17. The part of [handleGameOver] that runs when the commentary call
    completes, for a reply that is rejected, carries no text or an empty
    one, a text that [JSON.parse] rejects, or the serialisation of a
    commentary and grade pair. It never throws, whatever state the component
    is in by then (also a new game started meanwhile: there is no guard
    against a late reply). It shows the value the commentary service returns
    on that reply, which is the pair the reply serialises or else the
    fallback, clears the loading flag, and changes nothing else of the state
    nor the store. A reply whose text parses to JSON of another shape is
    outside this statement. *)
Theorem X17_commentary_arrival :
  forall sc len reply g w,
    exists a w',
      handleGameOver_resume sc len reply (mkMachine g w) =
      Ok tt (mkMachine (with_analysis g a) w') /\
      Untyped.getGameOverCommentary sc len (untyped_reply reply) (untyped_world w) =
      Ok (analysis_json a) (untyped_world w') /\
      (a = geminiService.fallback \/
       reply = inl (geminiService.mkResponse (Some (JsonOf a)))) /\
      localStorage w' = localStorage w.
Proof.
  intros sc len reply g w.
  destruct g as [sn fd dir st sc0 hs pn lb gd il dr nd].
  destruct w as [st0 c a0 d].
  destruct reply as [[[[[|ch raw] | v] |]] | e];
    eexists; eexists; (split; [reflexivity |]); (split; [reflexivity |]);
    split; auto.
Qed.

(* ================================================================== *)
(** ** Where the scene draws a cell *)
(* ================================================================== *)

(** X18. [SnakeRenderer] and [FoodRenderer] put the cell (7,7) at the
    origin and keep grid distances: the world coordinates of two cells differ
    by exactly their grid coordinates' difference, so different cells are
    drawn at different places. Every cell of the board, taken as a square of
    side [CELL_SIZE] around its position, lies within the playable plane of
    [GameBoard], whose half side is 7.5. *)
Theorem X18_cells_in_the_scene :
  (SceneComponents.world_x (mkPosition 7 7) == 0 /\
   SceneComponents.world_z (mkPosition 7 7) == 0)%Q /\
  (forall p q,
     (SceneComponents.world_x p - SceneComponents.world_x q == inject_Z (x p - x q) /\
      SceneComponents.world_z p - SceneComponents.world_z q == inject_Z (y p - y q))%Q) /\
  (forall p q,
     (SceneComponents.world_x p == SceneComponents.world_x q)%Q ->
     (SceneComponents.world_z p == SceneComponents.world_z q)%Q -> p = q) /\
  (forall p,
     onBoard p ->
     let h := SceneComponents.halfSize SceneComponents.BOARD_SIZE in
     let r := (SceneComponents.CELL_SIZE / 2)%Q in
     (- h <= SceneComponents.world_x p - r /\ SceneComponents.world_x p + r <= h /\
      - h <= SceneComponents.world_z p - r /\ SceneComponents.world_z p + r <= h)%Q).
Proof.
  assert (Hdiff : forall a b,
            (inject_Z a * SceneComponents.CELL_SIZE - SceneComponents.BOARD_OFFSET
             - (inject_Z b * SceneComponents.CELL_SIZE - SceneComponents.BOARD_OFFSET)
             == inject_Z (a - b))%Q).
  { intros a b. unfold Z.sub. rewrite inject_Z_plus, inject_Z_opp.
    unfold SceneComponents.CELL_SIZE. ring. }
  split; [split; reflexivity |]. split; [| split].
  - intros p q. split; apply Hdiff.
  - intros [px py] [qx qy]. unfold SceneComponents.world_x, SceneComponents.world_z.
    simpl. intros Hx Hz.
    assert (Ex : (inject_Z (px - qx) == 0)%Q) by (rewrite <- Hdiff, Hx; ring).
    assert (Ez : (inject_Z (py - qy) == 0)%Q) by (rewrite <- Hdiff, Hz; ring).
    unfold Qeq in Ex, Ez. simpl in Ex, Ez.
    f_equal; lia.
  - intros [px py] [[Hx0 Hx1] [Hy0 Hy1]] h r. cbn [x y] in *.
    unfold App.BOARD_SIZE in *.
    assert (Qx0 : (0 <= inject_Z px)%Q)
      by (change 0%Q with (inject_Z 0); rewrite <- Zle_Qle; lia).
    assert (Qx1 : (inject_Z px <= 14)%Q)
      by (change 14%Q with (inject_Z 14); rewrite <- Zle_Qle; lia).
    assert (Qy0 : (0 <= inject_Z py)%Q)
      by (change 0%Q with (inject_Z 0); rewrite <- Zle_Qle; lia).
    assert (Qy1 : (inject_Z py <= 14)%Q)
      by (change 14%Q with (inject_Z 14); rewrite <- Zle_Qle; lia).
    subst h r.
    unfold SceneComponents.world_x, SceneComponents.world_z,
      SceneComponents.halfSize, SceneComponents.BOARD_OFFSET,
      SceneComponents.BOARD_SIZE, SceneComponents.CELL_SIZE.
    cbn [x y].
    set (qx := inject_Z px) in *. set (qy := inject_Z py) in *.
    clearbody qx qy.
    change (15 * 1 / 2 - 1 / 2)%Q with (28 # 4)%Q.
    change (15 / 2)%Q with (15 # 2)%Q. change (1 / 2)%Q with (1 # 2)%Q.
    repeat split; lra.
Qed.

Example X18_cells_in_the_scene_witness :
  (- SceneComponents.halfSize SceneComponents.BOARD_SIZE
     <= SceneComponents.world_x (mkPosition 14 0) - SceneComponents.CELL_SIZE / 2 /\
   SceneComponents.world_x (mkPosition 14 0) + SceneComponents.CELL_SIZE / 2
     <= SceneComponents.halfSize SceneComponents.BOARD_SIZE /\
   - SceneComponents.halfSize SceneComponents.BOARD_SIZE
     <= SceneComponents.world_z (mkPosition 14 0) - SceneComponents.CELL_SIZE / 2 /\
   SceneComponents.world_z (mkPosition 14 0) + SceneComponents.CELL_SIZE / 2
     <= SceneComponents.halfSize SceneComponents.BOARD_SIZE)%Q.
Proof.
  destruct X18_cells_in_the_scene as [_ [_ [_ Hin]]].
  apply (Hin (mkPosition 14 0)).
  unfold onBoard, BOARD_SIZE. simpl. lia.
Defined.

(* ================================================================== *)
(** ** What a tick writes, what a start sets, how the status moves *)
(* ================================================================== *)

(** X19. A tick from PLAYING that returns either leaves the game in
    PLAYING, and then it has not touched the store, the console, the alerts,
    the leaderboard shown or the high score; or it ends the game, and then it
    has handed the player's name and score to the leaderboard service: the
    leaderboard shown is the top ten of the stored list with that entry
    added, the store holds it if it takes the write, and the high score is
    the larger of the old one and the score. *)
Theorem X19_only_the_last_tick_saves :
  forall fuel rnd now g w m',
    status g = PLAYING ->
    moveSnake fuel rnd now (mkMachine g w) = Ok tt m' ->
    let lb := top_ten (stored_leaderboard (localStorage w)
                       ++ [new_entry now (playerName g) (score g)]) in
    (status (app m') = PLAYING /\
     localStorage (world m') = localStorage w /\
     console (world m') = console w /\
     alerts (world m') = alerts w /\
     leaderboard (app m') = leaderboard g /\
     highScore (app m') = highScore g) \/
    (status (app m') = GAME_OVER /\
     leaderboard (app m') = lb /\
     highScore (app m') = Z.max (highScore g) (score g) /\
     score (app m') = score g /\
     isLoadingGemini (app m') = true /\
     localStorage (world m') =
       (if setItem_throws (localStorage w) then localStorage w
        else with_leaderboard lb (localStorage w))).
Proof.
  intros fuel rnd now g w m' Hp Hm lb.
  destruct (snake g) as [|head rest] eqn:Hsn.
  { exfalso. revert Hm. destruct g as [sn fd dir st sc hs pn l0 gd il dr nd].
    simpl in *. subst. tick_unfold. tick_cbn. discriminate. }
  set (newHead := advance head (nextDirectionRef g)).
  assert (Hover : moveSnake fuel rnd now (mkMachine g w) =
                  handleGameOver now (mkMachine (turned g) w) ->
                  status (app m') = GAME_OVER /\
                  leaderboard (app m') = lb /\
                  highScore (app m') = Z.max (highScore g) (score g) /\
                  score (app m') = score g /\
                  isLoadingGemini (app m') = true /\
                  localStorage (world m') =
                    (if setItem_throws (localStorage w) then localStorage w
                     else with_leaderboard lb (localStorage w))).
  { intros E. rewrite E in Hm.
    destruct (handleGameOver_saves now (turned g) w) as [w' [Hrun [Hst _]]].
    rewrite Hrun in Hm. injection Hm as <-.
    destruct g; repeat split; exact Hst. }
  destruct (off_board newHead) eqn:Hoff.
  { right. apply Hover, (moveSnake_wall fuel rnd now g w head rest Hp Hsn Hoff). }
  destruct (Array_some (same_cell newHead) (comparison_body g newHead)) eqn:Hc.
  { right. apply Hover, (moveSnake_self fuel rnd now g w head rest Hp Hsn Hoff Hc). }
  left. unfold comparison_body in Hc.
  destruct (Position_eqb newHead (food g)) eqn:He.
  - destruct (moveSnake_eat_inv fuel rnd now g w head rest Hp Hsn m' Hoff He Hc Hm)
      as [p [w' [Hrun ->]]].
    apply getRandomPosition_Ok_inv in Hrun. destruct Hrun as [k [_ [_ [-> _]]]].
    simpl. repeat split. exact Hp.
  - rewrite (moveSnake_move fuel rnd now g w head rest Hp Hsn Hoff He Hc) in Hm.
    injection Hm as <-. simpl. repeat split. exact Hp.
Qed.

Example X19_only_the_last_tick_saves_witness :
  let g := in_play [mkPosition 0 3; mkPosition 1 3; mkPosition 2 3]
                   (mkPosition 7 4) (mkPosition (-1) 0) in
  let m' := mkMachine
              (mkApp [mkPosition 0 3; mkPosition 1 3; mkPosition 2 3] (mkPosition 7 4)
                     (mkPosition (-1) 0) GAME_OVER 0 0 (lit "Alex")
                     [Leaderboard.mkEntry (lit "Alex") 0 (lit "2025")] None true
                     (mkPosition (-1) 0) (mkPosition (-1) 0))
              (mkWorld (mkStorage
                          (Some (JsonOf [Leaderboard.mkEntry (lit "Alex") 0 (lit "2025")]))
                          None false false) [] [] 0) in
  (status (app m') = PLAYING /\
   localStorage (world m') = localStorage world0 /\
   console (world m') = console world0 /\
   alerts (world m') = alerts world0 /\
   leaderboard (app m') = leaderboard g /\
   highScore (app m') = highScore g) \/
  (status (app m') = GAME_OVER /\
   leaderboard (app m') = [Leaderboard.mkEntry (lit "Alex") 0 (lit "2025")] /\
   highScore (app m') = Z.max (highScore g) (score g) /\
   score (app m') = score g /\
   isLoadingGemini (app m') = true /\
   localStorage (world m') =
     with_leaderboard [Leaderboard.mkEntry (lit "Alex") 0 (lit "2025")]
                      (localStorage world0)).
Proof.
  intros g m'.
  apply (X19_only_the_last_tick_saves 0%nat (fun _ => 0%Q) (lit "2025") g world0 m');
    reflexivity.
Defined.

(** X20. The start command on a store that takes the write. With a blank
    player name it shows the prompt and returns with the state and the store
    as they were. With any other name, once a round of the food placement
    draws a cell off the initial snake, it returns with the snake on its
    three initial cells, both directions up, score 0, status PLAYING, the
    food off the snake and no analysis result, whatever the status before;
    the high score, the leaderboard shown and the player name stay, and of
    the store only the player name changes, to the name as typed. *)
Theorem X20_startGame_on_a_working_store :
  forall fuel rnd g w,
    (blank (playerName g) ->
     startGame fuel rnd (mkMachine g w) =
     Ok tt (mkMachine g (mkWorld (localStorage w) (console w)
                                 (lit "Please identify yourself, Agent." :: alerts w)
                                 (draws w)))) /\
    (~ blank (playerName g) ->
     setItem_throws (localStorage w) = false ->
     forall k, (k < fuel)%nat ->
       ~ In (candidate rnd (draws w) k) INITIAL_SNAKE ->
       exists p w',
         startGame fuel rnd (mkMachine g w) =
         Ok tt (mkMachine
                  (mkApp INITIAL_SNAKE p INITIAL_DIRECTION PLAYING 0 (highScore g)
                         (playerName g) (leaderboard g) None (isLoadingGemini g)
                         INITIAL_DIRECTION INITIAL_DIRECTION) w') /\
         ~ In p INITIAL_SNAKE /\
         wpp_snake_player_name (localStorage w') = Some (playerName g) /\
         wpp_snake_leaderboard_v1 (localStorage w')
           = wpp_snake_leaderboard_v1 (localStorage w) /\
         console w' = console w /\ alerts w' = alerts w).
Proof.
  intros fuel rnd g w. split; [apply startGame_rejects |].
  intros Hb Hw k Hk Hfree.
  assert (Ht : truthy (trim (playerName g)) = true).
  { destruct (truthy (trim (playerName g))) eqn:E; [reflexivity |].
    exfalso. apply Hb, truthy_trim, E. }
  destruct g as [sn fd dir st sc hs pn lb gd il dr nd]. simpl in Hb, Ht.
  destruct w as [[cell sv gt wt] c a d]. simpl in Hw, Hk, Hfree. subst wt.
  set (w1 := mkWorld (mkStorage cell (Some pn) gt false) c a d).
  destruct (getRandomPosition_returns rnd INITIAL_SNAKE k fuel w1 Hk Hfree)
    as [j [_ [Hrun Hj]]].
  unfold w1 in Hrun.
  cbv -[trim truthy lit jsstring getRandomPosition INITIAL_SNAKE INITIAL_DIRECTION].
  rewrite Ht, Hrun.
  eexists. eexists. split; [reflexivity |]. split; [exact Hj |]. repeat split.
Qed.

Example X20_startGame_on_a_working_store_witness :
  exists p w',
    startGame 1 (fun _ => 0%Q)
      (mkMachine
         (mkApp [mkPosition 0 3; mkPosition 1 3; mkPosition 2 3; mkPosition 3 3]
                (mkPosition 9 9) (mkPosition (-1) 0) GAME_OVER 10 10
                (lit "Alex") [] (Some geminiService.fallback) false
                (mkPosition (-1) 0) (mkPosition (-1) 0)) world0) =
    Ok tt (mkMachine
             (mkApp INITIAL_SNAKE p INITIAL_DIRECTION PLAYING 0 10
                    (lit "Alex") [] None false
                    INITIAL_DIRECTION INITIAL_DIRECTION) w') /\
    ~ In p INITIAL_SNAKE /\
    wpp_snake_player_name (localStorage w') = Some (lit "Alex") /\
    wpp_snake_leaderboard_v1 (localStorage w') = None /\
    console w' = [] /\ alerts w' = [].
Proof.
  destruct (X20_startGame_on_a_working_store 1%nat (fun _ => 0%Q)
              (mkApp [mkPosition 0 3; mkPosition 1 3; mkPosition 2 3; mkPosition 3 3]
                     (mkPosition 9 9) (mkPosition (-1) 0) GAME_OVER 10 10
                     (lit "Alex") [] (Some geminiService.fallback) false
                     (mkPosition (-1) 0) (mkPosition (-1) 0)) world0)
    as [_ Hreset].
  apply (Hreset) with (k := 0%nat).
  - intros Hb. apply truthy_trim in Hb. discriminate Hb.
  - reflexivity.
  - lia.
  - vm_compute. intuition discriminate.
Defined.

Lemma handleKeyDown_status key g w :
  exists g',
    handleKeyDown key (mkMachine g w) = Ok tt (mkMachine g' w) /\
    allowed (KeyDown key) (status g) (status g').
Proof.
  destruct g as [sn fd dir st sc hs pn lb gd il dr nd].
  unfold allowed, pause_key, handleKeyDown, togglePause, setStatus,
    set_nextDirectionRef, update, get, modify, reads, bind, ret.
  destruct (key_is key ["p"; "P"; "Escape"]%string).
  { destruct st; eexists; (split; [reflexivity |]); simpl; auto 6. }
  cbn -[key_is Z.eqb]. destruct st; cbn -[key_is Z.eqb];
    try (eexists; (split; [reflexivity |]); left; reflexivity).
  destruct (key_is key ["ArrowUp"; "w"; "W"]%string);
    [destruct (negb (y dr =? 1))
    | destruct (key_is key ["ArrowDown"; "s"; "S"]%string);
      [destruct (negb (y dr =? -1))
      | destruct (key_is key ["ArrowLeft"; "a"; "A"]%string);
        [destruct (negb (x dr =? 1))
        | destruct (key_is key ["ArrowRight"; "d"; "D"]%string);
          [destruct (negb (x dr =? -1)) |]]]];
    eexists; (split; [reflexivity |]); left; reflexivity.
Qed.

Lemma moveSnake_status fuel rnd now g w :
  lands_in (fun g' => allowed (Tick fuel rnd now) (status g) (status g'))
           (moveSnake fuel rnd now (mkMachine g w)).
Proof.
  destruct (GameStatus_eqb (status g) PLAYING) eqn:Hst.
  2:{ rewrite moveSnake_not_playing; [left; reflexivity |].
      intros E. rewrite E in Hst. discriminate Hst. }
  assert (Hp : status g = PLAYING)
    by (destruct (status g); try discriminate; reflexivity).
  destruct (snake g) as [|head rest] eqn:Hsn.
  { destruct g as [sn fd dir st sc hs pn lb gd il dr nd]. simpl in *. subst.
    left. reflexivity. }
  set (newHead := advance head (nextDirectionRef g)).
  destruct (off_board newHead) eqn:Hoff.
  { rewrite (moveSnake_wall fuel rnd now g w head rest Hp Hsn Hoff).
    destruct (handleGameOver_returns now (turned g) w) as [lb [w' [-> _]]].
    right. split; [exact Hp | reflexivity]. }
  destruct (Array_some (same_cell newHead) (comparison_body g newHead)) eqn:Hc.
  { rewrite (moveSnake_self fuel rnd now g w head rest Hp Hsn Hoff Hc).
    destruct (handleGameOver_returns now (turned g) w) as [lb [w' [-> _]]].
    right. split; [exact Hp | reflexivity]. }
  unfold comparison_body in Hc.
  destruct (Position_eqb newHead (food g)) eqn:He.
  - destruct (getRandomPosition fuel rnd (newHead :: snake g) w)
      as [p w' | e w' |] eqn:Hp'.
    + rewrite (moveSnake_eat fuel rnd now g w head rest Hp Hsn p w' Hoff He Hc Hp').
      left. reflexivity.
    + exfalso. eapply getRandomPosition_no_throw, Hp'.
    + rewrite (moveSnake_eat_out_of_fuel fuel rnd now g w head rest Hp Hsn Hoff He Hc Hp').
      exact I.
  - rewrite (moveSnake_move fuel rnd now g w head rest Hp Hsn Hoff He Hc).
    left. reflexivity.
Qed.

Lemma startGame_status fuel rnd g w :
  lands_in (fun g' => allowed (Start fuel rnd) (status g) (status g'))
           (startGame fuel rnd (mkMachine g w)).
Proof.
  destruct g as [sn fd dir st sc hs pn lb gd il dr nd].
  destruct w as [[cell sv gt wt] c a d].
  cbv -[trim truthy lit jsstring getRandomPosition INITIAL_SNAKE INITIAL_DIRECTION
        pause_key].
  destruct (truthy (trim pn)); [| left; reflexivity].
  destruct wt; [left; reflexivity |].
  destruct (getRandomPosition _ _ _ _) as [p w' | e w' |];
    try exact I; right; reflexivity.
Qed.

(** X21. How the status can move. Whatever the state, and whether the
    handler returns or throws, an event leaves the status as it was or moves
    it in one of these ways only: a pause command or a pause key between
    PLAYING and PAUSED, a tick from PLAYING to GAME_OVER, a start command to
    PLAYING. The arrival of a commentary never changes it. So IDLE and
    GAME_OVER are left only by a start command, and a paused game never
    ends. *)
Theorem X21_status_transitions :
  forall e g w,
    lands_in (fun g' => allowed e (status g) (status g')) (handler e (mkMachine g w)).
Proof.
  intros [key | fuel rnd now | fuel rnd | | sc len reply] g w; cbn [handler].
  - destruct (handleKeyDown_status key g w) as [g' [-> H]]. exact H.
  - apply moveSnake_status.
  - apply startGame_status.
  - destruct g as [sn fd dir st sc hs pn lb gd il dr nd].
    destruct st; simpl; unfold allowed; intuition auto.
  - destruct (handleGameOver_resume_returns sc len reply g w) as [a [w' [-> _]]].
    left. destruct g; reflexivity.
Qed.
